(** * foodie-server: the restaurants service and its keyword index

    A shallow embedding of [src/restaurants/restaurants.service.ts]:
    the [RestaurantsService] methods are functions in a small monad that
    threads the two TypeORM repositories, the trace of repository calls
    and the storage faults, and that can throw (a rejected promise).

    The keyword index of a restaurant is a JavaScript object used as a
    map from word to count; it is a [gmap string Z] here. *)

From Stdlib Require Import ZArith Ascii String List.
From stdpp Require Import base decidable option list gmap strings fin_maps.

Open Scope string_scope.
Open Scope list_scope.
Open Scope Z_scope.

(** ** Tokenisation *)

Module Tokens.

(** Modelled from the spec: the tokenizer is part of
    [extractAndCountKeywords] ([src/helpers/util], not among the
    sources).  Section 4.1: the text is lower-cased and split on the
    characters that are not word characters, empty tokens being
    discarded.  A word character is one of the class [\w] of a
    JavaScript regular expression, [A-Za-z0-9_]; strings are strings of
    bytes, and the letters that have a lower case are the ASCII ones. *)
Definition is_word_char (c : ascii) : bool :=
  let n := N_of_ascii c in
  (((48 <=? n) && (n <=? 57)) || ((65 <=? n) && (n <=? 90))
   || ((97 <=? n) && (n <=? 122)) || (n =? 95))%N.

(** [String.prototype.toLowerCase] on the ASCII letters. *)
Definition lower_char (c : ascii) : ascii :=
  let n := N_of_ascii c in
  if ((65 <=? n) && (n <=? 90))%N then ascii_of_N (n + 32) else c.

Fixpoint toLowerCase (s : string) : string :=
  match s with
  | EmptyString => EmptyString
  | String c s' => String (lower_char c) (toLowerCase s')
  end.

Definition flush (cur : string) : list string :=
  match cur with
  | EmptyString => []
  | _ => [cur]
  end.

(** Splitting on the characters that are not word characters; [cur]
    is the word being read.  Empty pieces are discarded by [flush]. *)
Fixpoint split_words (cur s : string) : list string :=
  match s with
  | EmptyString => flush cur
  | String c s' =>
      if is_word_char c
      then split_words (cur +:+ String c EmptyString) s'
      else flush cur ++ split_words EmptyString s'
  end.

(** Modelled from the spec: the sequence of tokens of a text (section
    4.1), see [is_word_char]. *)
Definition tokenize (text : string) : list string :=
  split_words EmptyString (toLowerCase text).

End Tokens.

(** ** The keyword extractor *)

Module Extractor.
Import Tokens.

(** The value stored at a key of the index after one more occurrence
    of the word, and after one occurrence less. *)
Definition inc (o : option Z) : option Z :=
  match o with
  | Some c => Some (c + 1)
  | None => Some 1
  end.

Definition dec (o : option Z) : option Z :=
  match o with
  | Some c => if decide (c - 1 ≤ 0) then None else Some (c - 1)
  | None => None
  end.

(** Modelled from the spec: one token in add mode (section 4.1):
    "increment its count in the result map (insert with count 1 if
    absent)". *)
Definition add_word (m : gmap string Z) (w : string) : gmap string Z :=
  match m !! w with
  | Some c => <[w := c + 1]> m
  | None => <[w := 1]> m
  end.

(** Modelled from the spec: one token in subtract mode (section 4.1):
    "decrement its count, and delete the key entirely if the resulting
    count is ≤ 0"; a key that is not present is left alone. *)
Definition subtract_word (m : gmap string Z) (w : string) : gmap string Z :=
  match m !! w with
  | Some c => if decide (c - 1 ≤ 0) then delete w m else <[w := c - 1]> m
  | None => m
  end.

Definition count_words (subtract : bool) (m : gmap string Z)
    (ws : list string) : gmap string Z :=
  foldl (if subtract then subtract_word else add_word) m ws.

(** Modelled from the spec: [extractAndCountKeywords] of
    [src/helpers/util], which the service imports and which is not
    among the sources.  Section 4.1: absent or empty text returns the
    map unchanged; otherwise each token of the lower-cased text is
    added (inserted with count 1 when absent) or, when [subtract] is
    set, decremented and deleted once its count is ≤ 0, a token that
    is not a key being left alone. *)
Definition extractAndCountKeywords (existing : gmap string Z)
    (text : option string) (subtract : bool) : gmap string Z :=
  match text with
  | None => existing
  | Some EmptyString => existing
  | Some t => count_words subtract existing (tokenize t)
  end.

(** The tokens the extractor walks through for a text. *)
Definition tokens_of (text : option string) : list string :=
  match text with
  | Some t => tokenize t
  | None => []
  end.

(** A call of the extractor, as the workflows make them: the text and
    the direction. *)
Definition extract_call : Type := option string * bool.

Definition extract_all (m : gmap string Z) (calls : list extract_call)
    : gmap string Z :=
  foldl (λ acc c, extractAndCountKeywords acc c.1 c.2) m calls.

(** The invariant of the [keywords] column: every count is ≥ 1. *)
Definition counts_positive (m : gmap string Z) : Prop :=
  map_Forall (λ _ c, 1 ≤ c) m.

Fixpoint occurrences (w : string) (ws : list string) : nat :=
  match ws with
  | [] => O
  | w' :: ws' =>
      if decide (w = w') then S (occurrences w ws') else occurrences w ws'
  end.

End Extractor.

(** ** Entities and DTOs *)

Module Entities.

(** The caller identity: of [User] only [id] is read. *)
Record User := { u_id : Z }.

(** Modelled from the spec: the entity of
    [src/restaurants/entities/restaurants.entity] (not among the
    sources), with the fields of section 3.  [id] is [None] on an entity
    made by [Repository.create] that has not been saved yet; [keywords]
    is the object used as a map from word to count. *)
Record Restaurant := {
  r_id : option Z;
  r_ownerId : Z;
  r_name : string;
  r_description : option string;
  r_keywords : gmap string Z;
}.

(** Modelled from the spec: the entity of
    [src/restaurants/entities/dish.entity] (not among the sources), with
    the fields of section 3. *)
Record Dish := {
  d_id : option Z;
  d_restaurantId : Z;
  d_name : string;
  d_description : option string;
  d_price : Z;
  d_photo : option string;
}.

(** A restaurant loaded with [relations: ['dishes']]. *)
Record RestaurantWithDishes := {
  rd_restaurant : Restaurant;
  rd_dishes : list Dish;
}.

Definition set_keywords (r : Restaurant) (k : gmap string Z) : Restaurant :=
  {| r_id := r_id r; r_ownerId := r_ownerId r; r_name := r_name r;
     r_description := r_description r; r_keywords := k |}.

Definition set_restaurant_id (r : Restaurant) (i : Z) : Restaurant :=
  {| r_id := Some i; r_ownerId := r_ownerId r; r_name := r_name r;
     r_description := r_description r; r_keywords := r_keywords r |}.

Definition set_dish_id (d : Dish) (i : Z) : Dish :=
  {| d_id := Some i; d_restaurantId := d_restaurantId d; d_name := d_name d;
     d_description := d_description d; d_price := d_price d;
     d_photo := d_photo d |}.

Definition set_dish_name (d : Dish) (n : string) : Dish :=
  {| d_id := d_id d; d_restaurantId := d_restaurantId d; d_name := n;
     d_description := d_description d; d_price := d_price d;
     d_photo := d_photo d |}.

Definition set_dish_description (d : Dish) (s : string) : Dish :=
  {| d_id := d_id d; d_restaurantId := d_restaurantId d; d_name := d_name d;
     d_description := Some s; d_price := d_price d; d_photo := d_photo d |}.

Definition set_dish_price (d : Dish) (p : Z) : Dish :=
  {| d_id := d_id d; d_restaurantId := d_restaurantId d; d_name := d_name d;
     d_description := d_description d; d_price := p; d_photo := d_photo d |}.

Definition set_dish_photo (d : Dish) (p : string) : Dish :=
  {| d_id := d_id d; d_restaurantId := d_restaurantId d; d_name := d_name d;
     d_description := d_description d; d_price := d_price d;
     d_photo := Some p |}.

(** The input objects; a field that may be missing is an option. *)
Record CreateRestaurantInput := {
  cr_name : string;
  cr_description : option string;
}.

Record AddDishInput := {
  ad_name : option string;
  ad_description : option string;
  ad_photo : option string;
  ad_price : option Z;
  ad_restaurantId : option Z;
}.

Record UpdateDishInput := {
  ud_id : Z;
  ud_name : option string;
  ud_description : option string;
  ud_photo : option string;
  ud_price : option Z;
}.

Record BrowseRestaurantsInput := {
  br_limit : option Z;
  br_query : option string;
  br_offset : option Z;
}.

(** JavaScript truthiness of a possibly missing string or number:
    [Some] of the value when it is truthy. *)
Definition truthy_string (o : option string) : option string :=
  match o with
  | Some EmptyString => None
  | _ => o
  end.

Definition truthy_number (o : option Z) : option Z :=
  match o with
  | Some 0 => None
  | _ => o
  end.

(** ** Outputs *)

(** Modelled from the spec: the codes of [ERROR_NAMES]
    ([src/helpers/http-codes], not among the sources), one per error
    kind of section 7. *)
Inductive ErrorCode :=
| BAD_REQUEST | NOT_FOUND | UNAUTHORIZED | INTERNAL_SERVER_ERROR.

(** The message of a failure: the one a helper supplies when it is
    given none, a literal of the service, or the constant
    [INTERNAL_SERVER_ERROR_MESSAGE] of [src/common/common.constants]. *)
Inductive Message :=
| DefaultMessage
| Text (s : string)
| INTERNAL_SERVER_ERROR_MESSAGE.

(** The [{ ok, error, ... }] objects every method resolves to. *)
Inductive Output (A : Type) :=
| Ok (payload : A)
| Failure (code : ErrorCode) (message : Message).
Arguments Ok {A} payload.
Arguments Failure {A} code message.

Definition helper_message (m : option string) : Message :=
  match m with
  | Some s => Text s
  | None => DefaultMessage
  end.

(** Modelled from the spec: the helpers of [src/helpers/http-codes]
    (not among the sources) build the failure result of the kind their
    name says (section 7: ValidationError, NotFoundError,
    AuthorizationError, InternalError), with the message they are
    given or their own.  [badRequestError] is the ValidationError
    result. *)
Definition badRequestError {A} (m : option string) : Output A :=
  Failure BAD_REQUEST (helper_message m).

(** Modelled from the spec: [notFoundError] of [src/helpers/http-codes],
    the NotFoundError result. *)
Definition notFoundError {A} (m : option string) : Output A :=
  Failure NOT_FOUND (helper_message m).

(** Modelled from the spec: [unauthorizedError] of
    [src/helpers/http-codes], the AuthorizationError result. *)
Definition unauthorizedError {A} (m : option string) : Output A :=
  Failure UNAUTHORIZED (helper_message m).

(** Modelled from the spec: [internalServerError] of
    [src/helpers/http-codes], the InternalError result. *)
Definition internalServerError {A} (m : option string) : Output A :=
  Failure INTERNAL_SERVER_ERROR (helper_message m).

Record MyRestaurantPayload := {
  mr_restaurant : RestaurantWithDishes;
  mr_hasIncompleteOrders : bool;
}.

End Entities.

(** ** The repositories *)

(** The two TypeORM repositories are outside the service.  They are
    modelled by what the service relies on: two tables of rows,
    [findOne] by primary key, [find] with a disjunction of conditions
    and a page, [save] as insert-or-update, [delete] by primary key.
    Any call may be rejected by the storage layer. *)

Module Storage.
Import Entities.

(** The options of [Repository.find] that [browseRestaurants] builds.
    Each element of [fo_where] is the word [w] of one
    [Raw(`(keywords::jsonb->'w') is not null`)] condition.  [fo_take]
    is [None] when the value passed as [take] is [null]. *)
Record FindManyOptions := {
  fo_where : list string;
  fo_relations : list string;
  fo_skip : Z;
  fo_take : option Z;
}.

Inductive Call :=
| RestaurantsFindOne (id : Z) (relations : list string)
| RestaurantsFindByOwner (owner : User)
| RestaurantsFind (opts : FindManyOptions)
| RestaurantsSave (r : Restaurant)
| DishesFindOne (id : Z) (relations : list string)
| DishesSave (d : Dish)
| DishesDelete (id : Z).

(** The two tables in storage order, the id sequences, the calls made
    to the repositories so far, and the faults to come: the n-th
    boolean tells whether the n-th next repository call is rejected
    (none is once the list is exhausted). *)
Record World := {
  restaurantRows : list Restaurant;
  dishRows : list Dish;
  restaurantSeq : Z;
  dishSeq : Z;
  calls : list Call;
  faults : list bool;
}.

Inductive Exn := StorageFault | TypeError.

Inductive Outcome (A : Type) :=
| Returned (a : A)
| Thrown (e : Exn).
Arguments Returned {A} a.
Arguments Thrown {A} e.

(** An [async] method: from the world before to what the promise
    settles to and the world after. *)
Definition Async (A : Type) : Type := World → Outcome A * World.

Definition ret {A} (a : A) : Async A := λ w, (Returned a, w).

Definition throw {A} (e : Exn) : Async A := λ w, (Thrown e, w).

Definition bind {A B} (m : Async A) (k : A → Async B) : Async B :=
  λ w, match m w with
       | (Returned a, w') => k a w'
       | (Thrown e, w') => (Thrown e, w')
       end.

Definition try_catch {A} (m : Async A) (handler : Exn → Async A) : Async A :=
  λ w, match m w with
       | (Returned a, w') => (Returned a, w')
       | (Thrown e, w') => handler e w'
       end.

Definition with_tables (rs : list Restaurant) (ds : list Dish)
    (rseq dseq : Z) (w : World) : World :=
  {| restaurantRows := rs; dishRows := ds; restaurantSeq := rseq;
     dishSeq := dseq; calls := calls w; faults := faults w |}.

Definition next_fault (w : World) : bool :=
  match faults w with
  | b :: _ => b
  | [] => false
  end.

(** None of the next [n] repository calls is rejected. *)
Definition served (n : nat) (w : World) : bool :=
  forallb negb (take n (faults w)).

(** A repository call is recorded, then rejected or served. *)
Definition attempt (c : Call) (w : World) : bool * World :=
  (next_fault w,
   {| restaurantRows := restaurantRows w; dishRows := dishRows w;
      restaurantSeq := restaurantSeq w; dishSeq := dishSeq w;
      calls := calls w ++ [c]; faults := tail (faults w) |}).

Definition repository_call {A} (c : Call) (serve : World → A * World)
    : Async A :=
  λ w, let '(fault, w1) := attempt c w in
       if fault then (Thrown StorageFault, w1)
       else let '(a, w2) := serve w1 in (Returned a, w2).

Definition has_restaurant_id (i : Z) (r : Restaurant) : bool :=
  bool_decide (r_id r = Some i).

Definition has_dish_id (i : Z) (d : Dish) : bool :=
  bool_decide (d_id d = Some i).

Definition lookup_restaurant (i : Z) (rows : list Restaurant)
    : option Restaurant :=
  find (has_restaurant_id i) rows.

Definition lookup_dish (i : Z) (rows : list Dish) : option Dish :=
  find (has_dish_id i) rows.

Definition dishes_of (r : Restaurant) (rows : list Dish) : list Dish :=
  filter (λ d, Some (d_restaurantId d) = r_id r) rows.

Definition with_dishes (rows : list Dish) (r : Restaurant)
    : RestaurantWithDishes :=
  {| rd_restaurant := r; rd_dishes := dishes_of r rows |}.

(** [(keywords::jsonb->'w') is not null]: the key is present, whatever
    its count. *)
Definition has_key (w : string) (r : Restaurant) : bool :=
  bool_decide (is_Some (r_keywords r !! w)).

(** An array of conditions is their disjunction; an empty array is no
    condition. *)
Definition where_matches (conditions : list string) (r : Restaurant)
    : bool :=
  match conditions with
  | [] => true
  | _ => existsb (λ w, has_key w r) conditions
  end.

Definition candidates (conditions : list string) (rows : list Restaurant)
    : list Restaurant :=
  List.filter (where_matches conditions) rows.

(** [skip] and [take] as TypeORM 0.2 applies them: the options are
    tested for truthiness, so a [skip] of 0 sets no OFFSET and a [take]
    of 0 or [null] sets no LIMIT (every row from the offset on is
    returned); any other number is passed to SQL. *)
Definition page {A} (skip : Z) (take_ : option Z) (l : list A) : list A :=
  let rest := drop (Z.to_nat skip) l in
  match take_ with
  | None => rest
  | Some 0 => rest
  | Some n => take (Z.to_nat n) rest
  end.

(** SQL rejects a negative OFFSET and a negative LIMIT. *)
Definition page_rejected (skip : Z) (take_ : option Z) : bool :=
  bool_decide (skip < 0) || bool_decide (default 0 take_ < 0).

(** The dishes are attached when the relation [dishes] is asked for; a
    relation that is not asked for is not loaded, and the record then
    carries no dish. *)
Definition load_relations (relations : list string) (rows : list Dish)
    (r : Restaurant) : RestaurantWithDishes :=
  {| rd_restaurant := r;
     rd_dishes := if existsb (String.eqb "dishes") relations
                  then dishes_of r rows else [] |}.

Definition find_many (opts : FindManyOptions) (w : World)
    : list RestaurantWithDishes :=
  map (load_relations (fo_relations opts) (dishRows w))
      (page (fo_skip opts) (fo_take opts)
            (candidates (fo_where opts) (restaurantRows w))).

(** [save]: insert with the next id of the sequence when the entity
    has none, else replace the row of that id (or insert it). *)
Definition save_restaurant (r : Restaurant) (w : World)
    : Restaurant * World :=
  match r_id r with
  | None =>
      let r' := set_restaurant_id r (restaurantSeq w) in
      (r', with_tables (restaurantRows w ++ [r']) (dishRows w)
                       (restaurantSeq w + 1) (dishSeq w) w)
  | Some i =>
      let rows :=
        if existsb (has_restaurant_id i) (restaurantRows w)
        then map (λ x, if has_restaurant_id i x then r else x)
                 (restaurantRows w)
        else restaurantRows w ++ [r] in
      (r, with_tables rows (dishRows w) (restaurantSeq w) (dishSeq w) w)
  end.

Definition save_dish (d : Dish) (w : World) : Dish * World :=
  match d_id d with
  | None =>
      let d' := set_dish_id d (dishSeq w) in
      (d', with_tables (restaurantRows w) (dishRows w ++ [d'])
                       (restaurantSeq w) (dishSeq w + 1) w)
  | Some i =>
      let rows :=
        if existsb (has_dish_id i) (dishRows w)
        then map (λ x, if has_dish_id i x then d else x) (dishRows w)
        else dishRows w ++ [d] in
      (d, with_tables (restaurantRows w) rows (restaurantSeq w) (dishSeq w) w)
  end.

Definition delete_dish (i : Z) (w : World) : unit * World :=
  (tt, with_tables (restaurantRows w)
                   (List.filter (λ d, negb (has_dish_id i d)) (dishRows w))
                   (restaurantSeq w) (dishSeq w) w).

(** The repository methods the service calls. *)
Module restaurants.
Definition findOne (i : Z) : Async (option Restaurant) :=
  repository_call (RestaurantsFindOne i [])
    (λ w, (lookup_restaurant i (restaurantRows w), w)).

Definition findOne_with_dishes (i : Z)
    : Async (option RestaurantWithDishes) :=
  repository_call (RestaurantsFindOne i ["dishes"])
    (λ w, (with_dishes (dishRows w)
             <$> lookup_restaurant i (restaurantRows w), w)).

Definition find_by_owner (owner : User) : Async (list Restaurant) :=
  repository_call (RestaurantsFindByOwner owner)
    (λ w, (List.filter (λ r, bool_decide (r_ownerId r = u_id owner))
             (restaurantRows w), w)).

(** [find] is rejected by a fault of the storage layer or by SQL, for
    a negative [skip] or [take]. *)
Definition find (opts : FindManyOptions)
    : Async (list RestaurantWithDishes) :=
  λ w, let '(fault, w1) := attempt (RestaurantsFind opts) w in
       if fault || page_rejected (fo_skip opts) (fo_take opts)
       then (Thrown StorageFault, w1)
       else (Returned (find_many opts w1), w1).

Definition save (r : Restaurant) : Async Restaurant :=
  repository_call (RestaurantsSave r) (save_restaurant r).
End restaurants.

Module dishes.
Definition findOne (i : Z) (relations : list string)
    : Async (option Dish) :=
  repository_call (DishesFindOne i relations)
    (λ w, (lookup_dish i (dishRows w), w)).

Definition save (d : Dish) : Async Dish :=
  repository_call (DishesSave d) (save_dish d).

Definition delete (i : Z) : Async unit :=
  repository_call (DishesDelete i) (delete_dish i).
End dishes.

End Storage.

(** ** The service *)

Module RestaurantsService.
Import Tokens Extractor Entities Storage.

#[local] Instance async_ret : MRet Async := @ret.
#[local] Instance async_bind : MBind Async := λ A B k m, bind m k.

(** The [catch] clause written out in [createRestaurant],
    [myRestaurants], [myRestaurant] and [addDish]. *)
Definition internal_failure {A} : Exn → Async (Output A) :=
  λ _, mret (Failure INTERNAL_SERVER_ERROR INTERNAL_SERVER_ERROR_MESSAGE).

(** The [catch] clause of [deleteDish], [getDishById], [updateDish]. *)
Definition internal_helper {A} : Exn → Async (Output A) :=
  λ _, mret (internalServerError None).

Definition createRestaurant (owner : User) (input : CreateRestaurantInput)
    : Async (Output Restaurant) :=
  try_catch
    (let keywords :=
       extractAndCountKeywords ∅ (Some (cr_name input)) false in
     let keywords :=
       extractAndCountKeywords keywords (cr_description input) false in
     let restaurant :=
       {| r_id := None; r_ownerId := u_id owner; r_name := cr_name input;
          r_description := cr_description input; r_keywords := keywords |} in
     restaurant ← restaurants.save restaurant;
     mret (Ok restaurant))
    internal_failure.

Definition myRestaurants (owner : User) : Async (Output (list Restaurant)) :=
  try_catch
    (restaurants ← restaurants.find_by_owner owner;
     mret (Ok restaurants))
    internal_failure.

Definition myRestaurant_notFoundError : string :=
  "Restaurant not found or you don't have permission to view it.".

Definition myRestaurant (owner : User) (id : option Z)
    : Async (Output MyRestaurantPayload) :=
  try_catch
    (match truthy_number id with
     | None => mret (Failure BAD_REQUEST (Text "ID not provided"))
     | Some id =>
         restaurant ← restaurants.findOne_with_dishes id;
         match restaurant with
         | None =>
             mret (Failure NOT_FOUND (Text myRestaurant_notFoundError))
         | Some restaurant =>
             if decide (r_ownerId (rd_restaurant restaurant) ≠ u_id owner)
             then mret (Failure NOT_FOUND (Text myRestaurant_notFoundError))
             else mret (Ok {| mr_restaurant := restaurant;
                              mr_hasIncompleteOrders := true |})
         end
     end)
    internal_failure.

Definition addDish (owner : User) (input : AddDishInput)
    : Async (Output Dish) :=
  try_catch
    (match truthy_number (ad_restaurantId input),
           truthy_string (ad_name input),
           truthy_number (ad_price input) with
     | Some restaurantId, Some name, Some price =>
         restaurant ← restaurants.findOne restaurantId;
         match restaurant with
         | None => mret (notFoundError (Some "Restaurant not found!"))
         | Some restaurant =>
             if decide (u_id owner ≠ r_ownerId restaurant)
             then mret (unauthorizedError None)
             else
               let dish :=
                 {| d_id := None; d_restaurantId := restaurantId;
                    d_name := name; d_description := ad_description input;
                    d_price := price; d_photo := ad_photo input |} in
               (* [restaurant.keywords || {}] is [restaurant.keywords]:
                  an object is truthy *)
               let restaurant :=
                 set_keywords restaurant
                   (extractAndCountKeywords (r_keywords restaurant)
                      (Some name) false) in
               let restaurant :=
                 set_keywords restaurant
                   (extractAndCountKeywords (r_keywords restaurant)
                      (ad_description input) false) in
               dish ← dishes.save dish;
               _ ← restaurants.save restaurant;
               mret (Ok dish)
         end
     | _, _, _ => mret (badRequestError None)
     end)
    internal_failure.

(** The keywords [deleteDish] gives the restaurant before saving it:
    the name is subtracted, then the description. *)
Definition keywords_without_dish (restaurant : Restaurant) (dish : Dish)
    : gmap string Z :=
  extractAndCountKeywords
    (extractAndCountKeywords (r_keywords restaurant)
       (Some (d_name dish)) true)
    (d_description dish) true.

Definition deleteDish (owner : User) (id : Z) : Async (Output Dish) :=
  try_catch
    (dish ← dishes.findOne id ["restaurant"];
     match dish with
     | None => mret (notFoundError (Some "Dish not found!"))
     | Some dish =>
         restaurant ← restaurants.findOne (d_restaurantId dish);
         match restaurant with
         | None => throw TypeError
         | Some restaurant =>
             if decide (r_ownerId restaurant ≠ u_id owner)
             then mret (unauthorizedError None)
             else
               let restaurant :=
                 set_keywords restaurant
                   (keywords_without_dish restaurant dish) in
               _ ← restaurants.save restaurant;
               _ ← dishes.delete id;
               mret (Ok dish)
         end
     end)
    internal_helper.

Definition getDishById (owner : User) (id : Z) : Async (Output Dish) :=
  try_catch
    (dish ← dishes.findOne id [];
     match dish with
     | None => mret (notFoundError (Some "Dish not found"))
     | Some dish =>
         restaurant ← restaurants.findOne (d_restaurantId dish);
         match restaurant with
         | None => throw TypeError
         | Some restaurant =>
             if decide (r_ownerId restaurant ≠ u_id owner)
             then mret (unauthorizedError (Some "You can see this."))
             else mret (Ok dish)
         end
     end)
    internal_helper.

(** The assignments [updateDish] makes to the two objects it has in
    memory, between the ownership check and the save. *)
Definition rename_dish (name : option string)
    (objs : Restaurant * Dish) : Restaurant * Dish :=
  let '(restaurant, dish) := objs in
  match truthy_string name with
  | Some name =>
      let keywords :=
        extractAndCountKeywords (r_keywords restaurant)
          (Some (d_name dish)) true in
      let keywords := extractAndCountKeywords keywords (Some name) false in
      (set_keywords restaurant keywords, set_dish_name dish name)
  | None => objs
  end.

Definition redescribe_dish (description : option string)
    (objs : Restaurant * Dish) : Restaurant * Dish :=
  let '(restaurant, dish) := objs in
  match truthy_string description with
  | Some description =>
      let restaurant :=
        match truthy_string (d_description dish) with
        | Some old =>
            set_keywords restaurant
              (extractAndCountKeywords (r_keywords restaurant)
                 (Some old) true)
        | None => restaurant
        end in
      (set_keywords restaurant
         (extractAndCountKeywords (r_keywords restaurant)
            (Some description) false),
       set_dish_description dish description)
  | None => objs
  end.

Definition reprice_dish (price : option Z) (dish : Dish) : Dish :=
  match price with
  | Some price => set_dish_price dish price
  | None => dish
  end.

Definition rephoto_dish (photo : option string) (dish : Dish) : Dish :=
  match truthy_string photo with
  | Some photo => set_dish_photo dish photo
  | None => dish
  end.

Definition updateDish_objects (input : UpdateDishInput)
    (restaurant : Restaurant) (dish : Dish) : Restaurant * Dish :=
  let '(restaurant, dish) :=
    redescribe_dish (ud_description input)
      (rename_dish (ud_name input) (restaurant, dish)) in
  (restaurant, rephoto_dish (ud_photo input)
                 (reprice_dish (ud_price input) dish)).

Definition updateDish (owner : User) (input : UpdateDishInput)
    : Async (Output Dish) :=
  try_catch
    (dish ← dishes.findOne (ud_id input) [];
     match dish with
     | None => mret (notFoundError (Some "Dish not found!"))
     | Some dish =>
         restaurant ← restaurants.findOne (d_restaurantId dish);
         match restaurant with
         | None => throw TypeError
         | Some restaurant =>
             if decide (r_ownerId restaurant ≠ u_id owner)
             then mret (unauthorizedError None)
             else
               let '(restaurant, dish) :=
                 updateDish_objects input restaurant dish in
               dish ← dishes.save dish;
               mret (Ok dish)
         end
     end)
    internal_helper.

(** The keys of the object [queryWords], one condition each.  The
    [for ... in] loop visits them in insertion order and [map_to_list]
    in the order of the map; the conditions are a disjunction, so their
    order does not matter. *)
Definition browseWhere (query : string) (queryWords : gmap string Z)
    : list string :=
  match query with
  | EmptyString => []
  | _ => if decide (0 < size queryWords)%nat
         then (map_to_list queryWords).*1
         else []
  end.

Definition browse_options (input : BrowseRestaurantsInput)
    : FindManyOptions :=
  let limit := default 10 (br_limit input) in
  let query := default "" (br_query input) in
  let offset := default 0 (br_offset input) in
  let query := toLowerCase query in
  let queryWords := extractAndCountKeywords ∅ (Some query) false in
  {| fo_where := browseWhere query queryWords;
     fo_relations := ["dishes"];
     fo_skip := if decide (0 ≤ offset) then offset * limit else 0;
     fo_take := Some limit |}.

(** No [try]/[catch] here: a rejected [find] rejects the method. *)
Definition browseRestaurants (input : BrowseRestaurantsInput)
    : Async (Output (list RestaurantWithDishes)) :=
  restaurants ← restaurants.find (browse_options input);
  mret (Ok restaurants).

(** *** browseRestaurants on an input with [null] fields

    A field of [BrowseRestaurantsInput] is [None] when it is not
    supplied ([undefined]), and [browse_options] takes the product
    [offset * limit] in the integers.  A client can also send [null]
    for a field, a default parameter value replaces [undefined] only,
    and the product of two numbers is a double.  The method is embedded
    once more with both: [null] is kept where the source keeps it and
    the product is rounded as a double is; the two embeddings agree on
    an input without [null] whose product is below 2^53. *)
Inductive Field (A : Type) :=
| Undefined
| Null
| Given (a : A).
Arguments Undefined {A}.
Arguments Null {A}.
Arguments Given {A} a.

Record BrowseRestaurantsArgs := {
  ba_limit : Field Z;
  ba_query : Field string;
  ba_offset : Field Z;
}.

(** [{ x = d }]: the default replaces [undefined]; [None] is [null]. *)
Definition defaulted {A} (d : A) (f : Field A) : option A :=
  match f with
  | Undefined => Some d
  | Null => None
  | Given a => Some a
  end.

(** A number or [null] in a comparison or a product: [null] is 0. *)
Definition to_number (v : option Z) : Z := default 0 v.

(** The double nearest to an integer, ties to the even mantissa: every
    integer below 2^53 in absolute value is a double, a larger one is
    rounded to 53 significant bits. *)
Definition to_double (n : Z) : Z :=
  let a := Z.abs n in
  if a <? 2 ^ 53 then n
  else
    let e := Z.log2 a - 52 in
    let q := Z.shiftr a e in
    let r := a - Z.shiftl q e in
    let half := Z.shiftl 1 (e - 1) in
    let q' := if (half <? r) || ((r =? half) && Z.odd q) then q + 1 else q in
    Z.sgn n * Z.shiftl q' e.

(** [a * b] on numbers that hold integers. *)
Definition js_mul (a b : Z) : Z := to_double (a * b).

Definition browse_find_options (limit offset : option Z) (query : string)
    : FindManyOptions :=
  let query := toLowerCase query in
  let queryWords := extractAndCountKeywords ∅ (Some query) false in
  {| fo_where := browseWhere query queryWords;
     fo_relations := ["dishes"];
     fo_skip := if decide (0 ≤ to_number offset)
                then js_mul (to_number offset) (to_number limit) else 0;
     fo_take := limit |}.

(** [query.toLowerCase()] on [null] throws a [TypeError], and nothing
    catches it. *)
Definition browseRestaurants_nullable (args : BrowseRestaurantsArgs)
    : Async (Output (list RestaurantWithDishes)) :=
  let limit := defaulted 10 (ba_limit args) in
  let query := defaulted "" (ba_query args) in
  let offset := defaulted 0 (ba_offset args) in
  match query with
  | None => throw TypeError
  | Some query =>
      restaurants ← restaurants.find (browse_find_options limit offset query);
      mret (Ok restaurants)
  end.

Definition field_of {A} (o : option A) : Field A :=
  match o with
  | Some a => Given a
  | None => Undefined
  end.

Definition args_of (input : BrowseRestaurantsInput) : BrowseRestaurantsArgs :=
  {| ba_limit := field_of (br_limit input);
     ba_query := field_of (br_query input);
     ba_offset := field_of (br_offset input) |}.

End RestaurantsService.

(** ** A small catalogue, used to run the workflows *)

Module Scenario.
Import Extractor Entities Storage.

Definition alice : User := {| u_id := 1 |}.
Definition bob : User := {| u_id := 2 |}.

(** Alice's restaurant, indexed for its own name and for its dish. *)
Definition sushi_house : Restaurant :=
  {| r_id := Some 1; r_ownerId := 1; r_name := "Sushi House";
     r_description := None;
     r_keywords :=
       extractAndCountKeywords
         (extractAndCountKeywords ∅ (Some "Sushi House") false)
         (Some "Salmon Roll") false |}.

Definition salmon_roll : Dish :=
  {| d_id := Some 1; d_restaurantId := 1; d_name := "Salmon Roll";
     d_description := None; d_price := 12; d_photo := None |}.

Definition world : World :=
  {| restaurantRows := [sushi_house]; dishRows := [salmon_roll];
     restaurantSeq := 2; dishSeq := 2; calls := []; faults := [] |}.

(** The same catalogue on a storage layer that rejects the next call. *)
Definition faulty_world : World :=
  {| restaurantRows := [sushi_house]; dishRows := [salmon_roll];
     restaurantSeq := 2; dishSeq := 2; calls := []; faults := [true] |}.

Definition tuna_roll_update : UpdateDishInput :=
  {| ud_id := 1; ud_name := Some "Tuna Roll"; ud_description := None;
     ud_photo := None; ud_price := None |}.

Definition miso_soup : AddDishInput :=
  {| ad_name := Some "Miso Soup"; ad_description := None; ad_photo := None;
     ad_price := Some 4; ad_restaurantId := Some 1 |}.

Definition no_query : BrowseRestaurantsInput :=
  {| br_limit := None; br_query := None; br_offset := None |}.

Definition named_by (i owner : Z) (name : string) (description : option string)
    : Restaurant :=
  {| r_id := Some i; r_ownerId := owner; r_name := name;
     r_description := description;
     r_keywords :=
       extractAndCountKeywords
         (extractAndCountKeywords ∅ (Some name) false) description false |}.

(** Four restaurants in a row, for paging and searching. *)
Definition named (i : Z) (name : string) : Restaurant :=
  {| r_id := Some i; r_ownerId := 1; r_name := name; r_description := None;
     r_keywords := extractAndCountKeywords ∅ (Some name) false |}.

Definition street : World :=
  {| restaurantRows := [named 1 "Salmon Bar"; named 2 "Tuna Bar";
                        named 3 "Pizza Place"; named 4 "Salmon and Tuna"];
     dishRows := []; restaurantSeq := 5; dishSeq := 1; calls := [];
     faults := [] |}.

Definition third_page_of_one : BrowseRestaurantsInput :=
  {| br_limit := Some 1; br_query := None; br_offset := Some 2 |}.

Definition empty_world : World :=
  {| restaurantRows := []; dishRows := []; restaurantSeq := 1; dishSeq := 1;
     calls := []; faults := [] |}.

(** The catalogue on a storage layer that serves two calls and rejects
    the third, and on one that rejects the fourth. *)
Definition world_failing_third : World :=
  {| restaurantRows := [sushi_house]; dishRows := [salmon_roll];
     restaurantSeq := 2; dishSeq := 2; calls := [];
     faults := [false; false; true] |}.

Definition world_failing_fourth : World :=
  {| restaurantRows := [sushi_house]; dishRows := [salmon_roll];
     restaurantSeq := 2; dishSeq := 2; calls := [];
     faults := [false; false; false; true] |}.

Definition free_soup : AddDishInput :=
  {| ad_name := Some "Miso Soup"; ad_description := None; ad_photo := None;
     ad_price := Some 0; ad_restaurantId := Some 1 |}.

Definition soup_elsewhere : AddDishInput :=
  {| ad_name := Some "Miso Soup"; ad_description := None; ad_photo := None;
     ad_price := Some 4; ad_restaurantId := Some 9 |}.

(** A dish whose restaurant is not stored. *)
Definition stray_dish : Dish :=
  {| d_id := Some 7; d_restaurantId := 9; d_name := "Stray Dish";
     d_description := None; d_price := 3; d_photo := None |}.

Definition stray_world : World :=
  {| restaurantRows := [sushi_house]; dishRows := [salmon_roll; stray_dish];
     restaurantSeq := 2; dishSeq := 8; calls := []; faults := [] |}.

Definition noodles_query_for_roll : BrowseRestaurantsInput :=
  {| br_limit := None; br_query := Some "miso?"; br_offset := None |}.

Definition rename_missing : UpdateDishInput :=
  {| ud_id := 5; ud_name := Some "Ghost"; ud_description := None;
     ud_photo := None; ud_price := None |}.

Definition rename_stray : UpdateDishInput :=
  {| ud_id := 7; ud_name := Some "Found"; ud_description := None;
     ud_photo := None; ud_price := None |}.

Definition free_and_plain : UpdateDishInput :=
  {| ud_id := 1; ud_name := Some ""; ud_description := Some "";
     ud_photo := None; ud_price := Some 0 |}.

Definition first_page_of_two : BrowseRestaurantsInput :=
  {| br_limit := Some 2; br_query := Some "bar tuna"; br_offset := Some 0 |}.

Definition ramen_bar : CreateRestaurantInput :=
  {| cr_name := "Ramen Bar"; cr_description := Some "Noodles, broth" |}.

Definition noodles_query : BrowseRestaurantsInput :=
  {| br_limit := None; br_query := Some "NOODLES please"; br_offset := None |}.

Definition salmon_or_tuna : BrowseRestaurantsInput :=
  {| br_limit := None; br_query := Some "Salmon, TUNA"; br_offset := None |}.

End Scenario.

(** ** What a caller can observe of the storage *)

Module Observations.
Import Entities Storage.

(** What the storage holds: the two tables and the id sequences. *)
Definition stored (w : World)
    : list Restaurant * list Dish * Z * Z :=
  (restaurantRows w, dishRows w, restaurantSeq w, dishSeq w).

(** The repository calls that write: [save] and [delete]. *)
Definition is_write (c : Call) : bool :=
  match c with
  | RestaurantsSave _ | DishesSave _ | DishesDelete _ => true
  | _ => false
  end.

Definition writes (w : World) : list Call := List.filter is_write (calls w).

End Observations.

Module ExtractorFacts.
Import Tokens Extractor.

Example tokenize_sushi :
  tokenize "Sushi House, est. 1999!" = ["sushi"; "house"; "est"; "1999"].
Proof. reflexivity. Qed.

Example tokenize_only_separators : tokenize " -- !" = [].
Proof. reflexivity. Qed.

Lemma lookup_add_word m w k :
  add_word m w !! k = if decide (k = w) then inc (m !! k) else m !! k.
Proof.
  unfold add_word. case_decide as Hk.
  - subst k. destruct (m !! w) eqn:E; simpl; by rewrite lookup_insert_eq.
  - destruct (m !! w); by rewrite lookup_insert_ne.
Qed.

Lemma lookup_subtract_word m w k :
  subtract_word m w !! k = if decide (k = w) then dec (m !! k) else m !! k.
Proof.
  unfold subtract_word. case_decide as Hk.
  - subst k. destruct (m !! w) as [c|] eqn:E; simpl; [|done].
    case_decide; [by rewrite lookup_delete_eq | by rewrite lookup_insert_eq].
  - destruct (m !! w) as [c|]; [|done].
    case_decide; [by rewrite lookup_delete_ne | by rewrite lookup_insert_ne].
Qed.

(** A fold of the extractor acts on each key on its own: the count of
    [k] is stepped once per occurrence of [k] among the tokens. *)
Lemma lookup_count_words subtract ws : ∀ m k,
  count_words subtract m ws !! k =
  Nat.iter (occurrences k ws) (if subtract then dec else inc) (m !! k).
Proof.
  unfold count_words.
  induction ws as [|w ws IH]; intros m k; [done|].
  cbn [foldl occurrences]. rewrite IH.
  destruct subtract.
  - rewrite lookup_subtract_word. case_decide; [|done].
    by rewrite Nat.iter_succ_r.
  - rewrite lookup_add_word. case_decide; [|done].
    by rewrite Nat.iter_succ_r.
Qed.

Lemma iter_dec_None n : Nat.iter n dec None = None.
Proof. induction n as [|n IH]; [done|]. by rewrite Nat.iter_succ_r. Qed.

Lemma iter_inc_Some n : ∀ c,
  Nat.iter n inc (Some c) = Some (c + Z.of_nat n).
Proof.
  induction n as [|n IH]; intros c.
  - simpl. f_equal. lia.
  - rewrite Nat.iter_succ_r. simpl inc. rewrite IH. f_equal. lia.
Qed.

Lemma iter_inc_None n : Nat.iter (S n) inc None = Some (Z.of_nat (S n)).
Proof.
  rewrite Nat.iter_succ_r. simpl inc. rewrite iter_inc_Some. f_equal. lia.
Qed.

Lemma iter_dec_above n : ∀ c,
  1 ≤ c → Nat.iter n dec (Some (c + Z.of_nat n)) = Some c.
Proof.
  induction n as [|n IH]; intros c Hc.
  - simpl. f_equal. lia.
  - rewrite Nat.iter_succ_r. simpl dec.
    case_decide; [lia|].
    replace (c + Z.of_nat (S n) - 1) with (c + Z.of_nat n) by lia.
    by apply IH.
Qed.

Lemma iter_dec_exhaust n : ∀ c,
  c ≤ Z.of_nat (S n) → Nat.iter (S n) dec (Some c) = None.
Proof.
  induction n as [|n IH]; intros c Hc.
  - simpl. case_decide; [done | lia].
  - rewrite Nat.iter_succ_r. simpl dec.
    case_decide; [apply iter_dec_None|].
    apply IH. lia.
Qed.

Lemma iter_dec_positive n : ∀ o c,
  (∀ c0, o = Some c0 → 1 ≤ c0) → Nat.iter n dec o = Some c → 1 ≤ c.
Proof.
  induction n as [|n IH]; intros o c Ho; simpl.
  - apply Ho.
  - destruct (Nat.iter n dec o) as [c1|] eqn:E; simpl; [|done].
    case_decide; [done|]. intros [= <-]. lia.
Qed.

Lemma iter_inc_positive n : ∀ o c,
  (∀ c0, o = Some c0 → 1 ≤ c0) → Nat.iter n inc o = Some c → 1 ≤ c.
Proof.
  intros o c Ho. destruct n as [|n]; [apply Ho|].
  destruct o as [c0|].
  - rewrite iter_inc_Some. intros [= <-]. specialize (Ho c0 eq_refl). lia.
  - rewrite iter_inc_None. intros [= <-]. lia.
Qed.

Lemma occurrences_pos w ws : w ∈ ws → (0 < occurrences w ws)%nat.
Proof.
  induction 1 as [w ws | w w' ws _ IH]; simpl; case_decide; (lia || done).
Qed.

Lemma occurrences_zero w ws : w ∉ ws → occurrences w ws = O.
Proof.
  induction ws as [|w' ws IH]; [done|]. intros Hn. simpl.
  case_decide as E; [subst; exfalso; apply Hn; left|].
  apply IH. intros ?. apply Hn. by right.
Qed.

(** Adding the tokens [ws] and then removing them restores the count
    of [k], provided it was absent or at least 1. *)
Lemma add_then_subtract_key ws k o :
  (∀ c, k ∈ ws → o = Some c → 1 ≤ c) →
  Nat.iter (occurrences k ws) dec (Nat.iter (occurrences k ws) inc o) = o.
Proof.
  intros Ho. destruct (decide (k ∈ ws)) as [Hin|Hin].
  - apply occurrences_pos in Hin as Hpos.
    destruct (occurrences k ws) as [|n] eqn:En; [lia|].
    destruct o as [c|].
    + rewrite iter_inc_Some. apply iter_dec_above. by apply Ho.
    + rewrite iter_inc_None. apply iter_dec_exhaust. lia.
  - by rewrite occurrences_zero.
Qed.

Lemma count_words_roundtrip m ws :
  (∀ w c, w ∈ ws → m !! w = Some c → 1 ≤ c) →
  count_words true (count_words false m ws) ws = m.
Proof.
  intros Hm. apply map_eq. intros k.
  rewrite !lookup_count_words.
  apply add_then_subtract_key. intros c Hin. by apply Hm.
Qed.

Lemma count_words_positive subtract ws m :
  counts_positive m → counts_positive (count_words subtract m ws).
Proof.
  intros Hm k c. rewrite lookup_count_words.
  destruct subtract.
  - apply iter_dec_positive. intros c0. apply Hm.
  - apply iter_inc_positive. intros c0. apply Hm.
Qed.

Lemma extract_positive m text subtract :
  counts_positive m → counts_positive (extractAndCountKeywords m text subtract).
Proof.
  intros Hm. destruct text as [[|a t]|]; try done.
  by apply count_words_positive.
Qed.

Lemma extract_all_positive calls : ∀ m,
  counts_positive m → counts_positive (extract_all m calls).
Proof.
  unfold extract_all.
  induction calls as [|[t s] calls IH]; intros m Hm; [done|].
  simpl. apply IH. by apply extract_positive.
Qed.

Lemma counts_positive_empty : counts_positive ∅.
Proof. apply map_Forall_empty. Qed.

Lemma extract_as_count_words m text subtract :
  extractAndCountKeywords m text subtract =
  count_words subtract m (tokens_of text).
Proof. destruct text as [[|a t]|]; by destruct subtract. Qed.

Lemma lookup_extract m text subtract k :
  extractAndCountKeywords m text subtract !! k =
  Nat.iter (occurrences k (tokens_of text))
           (if subtract then dec else inc) (m !! k).
Proof. by rewrite extract_as_count_words, lookup_count_words. Qed.

(** C3, as stated, fails on a map that holds a count of zero: the
    word is added (count 1), then subtracted (count 0, so the key is
    deleted), and the zero entry is gone. *)
Lemma extract_inverse_counterexample :
  extractAndCountKeywords
    (extractAndCountKeywords {["a" := 0]} (Some "a") false)
    (Some "a") true
  ≠ {["a" := 0]}.
Proof.
  intros H. apply (f_equal (λ m : gmap string Z, m !! "a")) in H.
  vm_compute in H. discriminate H.
Qed.

(** C3 (amended): adding a text and then subtracting the same text
    restores exactly the original map, for every text (absent and
    empty ones included) and every map in which each token of the text
    that is already a key has a count ≥ 1; in particular for every map
    that satisfies the invariant of the keywords column. *)
Theorem extract_add_then_subtract (m : gmap string Z) (t : option string) :
  (∀ w c, w ∈ tokens_of t → m !! w = Some c → 1 ≤ c) →
  extractAndCountKeywords (extractAndCountKeywords m t false) t true = m.
Proof.
  intros Hm. rewrite !extract_as_count_words.
  by apply count_words_roundtrip.
Qed.

Lemma extract_add_then_subtract_witness :
  extractAndCountKeywords
    (extractAndCountKeywords {["sushi" := 2]} (Some "Sushi roll, SUSHI")
       false)
    (Some "Sushi roll, SUSHI") true
  = {["sushi" := 2]}.
Proof.
  apply (extract_add_then_subtract {["sushi" := 2]}
           (Some "Sushi roll, SUSHI")).
  intros w c _ H. apply lookup_singleton_Some in H as [_ <-]. lia.
Defined.

Lemma add_then_subtract_under_invariant m t :
  counts_positive m →
  extractAndCountKeywords (extractAndCountKeywords m t false) t true = m.
Proof.
  intros Hm. rewrite !extract_as_count_words.
  apply count_words_roundtrip. intros w c _ Hw. by apply (Hm w c).
Qed.

(** The hypothesis of the amended law is needed: a token of the text
    whose count in the map is ≤ 0 is lost by the round trip. *)
Lemma add_then_subtract_loses_nonpositive m t w c :
  w ∈ tokens_of t → m !! w = Some c → c ≤ 0 →
  extractAndCountKeywords (extractAndCountKeywords m t false) t true !! w
  = None.
Proof.
  intros Hin Hw Hc. rewrite !lookup_extract, Hw.
  apply occurrences_pos in Hin.
  destruct (occurrences w (tokens_of t)) as [|n] eqn:En; [lia|].
  rewrite iter_inc_Some.
  apply iter_dec_exhaust. lia.
Qed.

(** C4: starting from a map whose counts are all ≥ 1 (the empty map
    is one), any finite sequence of extractor calls ends in a map
    whose counts are all ≥ 1; and subtracting a text in which a word
    occurs at least as often as its count removes that key, rather
    than storing a count that is 0 or negative. *)
Theorem keyword_counts_stay_positive (m : gmap string Z)
    (calls : list extract_call) :
  counts_positive m →
  counts_positive (extract_all m calls) ∧
  (∀ text w c,
      extract_all m calls !! w = Some c →
      w ∈ tokens_of text →
      c ≤ Z.of_nat (occurrences w (tokens_of text)) →
      extractAndCountKeywords (extract_all m calls) text true !! w = None).
Proof.
  intros Hm. split; [by apply extract_all_positive|].
  intros text w c Hw Hin Hc. rewrite lookup_extract, Hw.
  apply occurrences_pos in Hin.
  destruct (occurrences w (tokens_of text)) as [|n] eqn:En; [lia|].
  by apply iter_dec_exhaust.
Qed.

Lemma keyword_counts_stay_positive_witness :
  counts_positive ∅ ∧
  counts_positive
    (extract_all ∅ [(Some "Sushi House", false); (Some "fresh sushi", false);
                    (Some "sushi", true); (None, true);
                    (Some "house of sushi", true)]).
Proof.
  split; [apply map_Forall_empty|].
  apply (keyword_counts_stay_positive ∅
           [(Some "Sushi House", false); (Some "fresh sushi", false);
            (Some "sushi", true); (None, true);
            (Some "house of sushi", true)]).
  apply map_Forall_empty.
Defined.

Example extract_all_sushi :
  map_to_list
    (extract_all ∅ [(Some "Sushi House", false); (Some "fresh sushi", false);
                    (Some "sushi", true); (None, true);
                    (Some "house of sushi", true)])
  = [("fresh", 1)].
Proof. vm_compute. reflexivity. Qed.

(** The keywords [createRestaurant] seeds (lines 50-54) are counted
    from the empty object, so they satisfy the invariant. *)
Lemma seeded_keywords_positive name description :
  counts_positive
    (extractAndCountKeywords
       (extractAndCountKeywords ∅ (Some name) false) description false).
Proof. do 2 apply extract_positive. apply counts_positive_empty. Qed.

End ExtractorFacts.

(** ** The workflows *)

Module ServiceFacts.
Import Tokens Extractor Entities Storage RestaurantsService Scenario.

Ltac unfold_async :=
  unfold try_catch, mbind, async_bind, bind, mret, async_ret, ret, throw,
    internal_failure, internal_helper,
    restaurants.findOne, restaurants.findOne_with_dishes, restaurants.find,
    restaurants.find_by_owner, restaurants.save,
    dishes.findOne, dishes.save, dishes.delete,
    repository_call, attempt.

Lemma served_next n w : served (S n) w = true → next_fault w = false.
Proof.
  unfold served, next_fault. destruct (faults w) as [|[] fs]; simpl; done.
Qed.

Lemma served_tail n w c :
  served (S n) w = true → served n (attempt c w).2 = true.
Proof.
  unfold served, attempt. simpl.
  destruct (faults w) as [|[] fs]; simpl; try done.
  by destruct n.
Qed.

Lemma lookup_restaurant_id i rows r :
  lookup_restaurant i rows = Some r → r_id r = Some i.
Proof.
  unfold lookup_restaurant. intros H. apply find_some in H as [_ H].
  unfold has_restaurant_id in H. by apply bool_decide_eq_true in H.
Qed.

(** The guard of [addDish] is on truthiness: an empty name, a zero
    price or a zero id is rejected like a missing one. *)
Lemma addDish_falsy_field owner input w :
  truthy_number (ad_restaurantId input) = None
    ∨ truthy_string (ad_name input) = None
    ∨ truthy_number (ad_price input) = None →
  addDish owner input w = (Returned (Failure BAD_REQUEST DefaultMessage), w).
Proof.
  intros H. unfold addDish. unfold_async.
  destruct (truthy_number (ad_restaurantId input)),
    (truthy_string (ad_name input)), (truthy_number (ad_price input));
    destruct H as [H|[H|H]]; try discriminate H; reflexivity.
Qed.

(** C7: an [addDish] call whose [restaurantId], [name] or [price] is
    missing resolves to the validation failure and leaves the world as
    it was: no repository is called (no lookup, no save), no row
    changes. *)
Theorem addDish_missing_field (owner : User) (input : AddDishInput)
    (w : World) :
  ad_restaurantId input = None ∨ ad_name input = None
    ∨ ad_price input = None →
  addDish owner input w = (Returned (Failure BAD_REQUEST DefaultMessage), w).
Proof.
  intros H. unfold addDish. unfold_async.
  destruct input as [name description photo price restaurantId].
  simpl in *.
  destruct restaurantId as [[|?|?]|], name as [[|? ?]|], price as [[|?|?]|];
    destruct H as [H|[H|H]]; try discriminate H; reflexivity.
Qed.

Lemma addDish_missing_field_witness :
  addDish bob {| ad_name := Some "Miso Soup"; ad_description := None;
                 ad_photo := None; ad_price := None;
                 ad_restaurantId := Some 1 |} world
  = (Returned (Failure BAD_REQUEST DefaultMessage), world).
Proof.
  apply (addDish_missing_field bob
           {| ad_name := Some "Miso Soup"; ad_description := None;
              ad_photo := None; ad_price := None;
              ad_restaurantId := Some 1 |} world).
  right. right. reflexivity.
Defined.

(** C8, as stated, fails for a call that does not pass the field check:
    Bob adds a dish priced 0 to Alice's restaurant, which exists, and
    the guard on the fields answers first, with the validation failure
    and not the authorization failure. *)
Lemma addDish_not_owner_counterexample :
  lookup_restaurant 1 (restaurantRows world) = Some sushi_house ∧
  u_id bob ≠ r_ownerId sushi_house ∧
  ad_price free_soup = Some 0 ∧
  (addDish bob free_soup world).1
    = Returned (Failure BAD_REQUEST DefaultMessage) ∧
  (addDish bob free_soup world).1
    ≠ Returned (Failure UNAUTHORIZED DefaultMessage).
Proof. repeat split; try reflexivity; [simpl; lia | discriminate]. Qed.

(** C8 (amended): an [addDish] call whose [restaurantId], [name] and
    [price] are all truthy and whose lookup is served, on a restaurant
    that exists and belongs to somebody else, resolves to the
    authorization failure; the only repository call is the lookup, so
    no dish is created, nothing is saved, and the stored restaurant,
    its keyword map included, is as before. *)
Theorem addDish_not_owner (owner : User) (input : AddDishInput) (w : World)
    (restaurantId price : Z) (name : string) (restaurant : Restaurant) :
  truthy_number (ad_restaurantId input) = Some restaurantId →
  truthy_string (ad_name input) = Some name →
  truthy_number (ad_price input) = Some price →
  next_fault w = false →
  lookup_restaurant restaurantId (restaurantRows w) = Some restaurant →
  u_id owner ≠ r_ownerId restaurant →
  let r := addDish owner input w in
  r.1 = Returned (Failure UNAUTHORIZED DefaultMessage) ∧
  restaurantRows r.2 = restaurantRows w ∧
  dishRows r.2 = dishRows w ∧
  (restaurantSeq r.2, dishSeq r.2) = (restaurantSeq w, dishSeq w) ∧
  lookup_restaurant restaurantId (restaurantRows r.2) = Some restaurant ∧
  calls r.2 = calls w ++ [RestaurantsFindOne restaurantId []].
Proof.
  intros Hid Hname Hprice Hserved Hrow Hneq.
  unfold addDish. unfold_async.
  rewrite Hid, Hname, Hprice, Hserved. simpl. rewrite Hrow.
  case_decide; [|done]. simpl. by rewrite Hrow.
Qed.

Lemma addDish_not_owner_witness :
  let r := addDish bob miso_soup world in
  r.1 = Returned (Failure UNAUTHORIZED DefaultMessage) ∧
  restaurantRows r.2 = restaurantRows world ∧
  dishRows r.2 = dishRows world ∧
  (restaurantSeq r.2, dishSeq r.2) = (restaurantSeq world, dishSeq world) ∧
  lookup_restaurant 1 (restaurantRows r.2) = Some sushi_house ∧
  calls r.2 = calls world ++ [RestaurantsFindOne 1 []].
Proof.
  apply (addDish_not_owner bob miso_soup world 1 4 "Miso Soup" sushi_house);
    [reflexivity | reflexivity | reflexivity | reflexivity | reflexivity
    | simpl; lia].
Defined.

(** C10: [getDishById] on a dish that exists, by a caller who is not
    the owner of its restaurant, resolves to the unauthorized failure
    (so not to not-found); [myRestaurant] asked for that same
    restaurant by that same caller resolves to not-found. *)
Theorem getDishById_not_owner (owner : User) (id : Z) (w : World)
    (dish : Dish) (restaurant : Restaurant) :
  served 2 w = true →
  lookup_dish id (dishRows w) = Some dish →
  lookup_restaurant (d_restaurantId dish) (restaurantRows w)
    = Some restaurant →
  r_ownerId restaurant ≠ u_id owner →
  (getDishById owner id w).1
    = Returned (Failure UNAUTHORIZED (Text "You can see this.")) ∧
  (getDishById owner id w).1
    ≠ Returned (Failure NOT_FOUND (Text "Dish not found")) ∧
  (d_restaurantId dish ≠ 0 →
   (myRestaurant owner (Some (d_restaurantId dish)) w).1
     = Returned (Failure NOT_FOUND (Text myRestaurant_notFoundError))).
Proof.
  intros Hserved Hdish Hrow Hneq.
  assert (Hnext : next_fault w = false) by by eapply served_next.
  assert (Hnext2 : ∀ c, next_fault (attempt c w).2 = false).
  { intros c. eapply (served_next 0). by apply served_tail. }
  assert (Hget : (getDishById owner id w).1
            = Returned (Failure UNAUTHORIZED (Text "You can see this."))).
  { unfold getDishById. unfold_async. rewrite Hnext. simpl.
    rewrite Hdish.
    specialize (Hnext2 (DishesFindOne id [])). unfold attempt in Hnext2.
    simpl in Hnext2. rewrite Hnext2. simpl. rewrite Hrow.
    by case_decide. }
  split; [done|]. split; [by rewrite Hget|].
  intros Hid. unfold myRestaurant. unfold_async.
  destruct (d_restaurantId dish) as [|p|p] eqn:E; [done| |];
    simpl; rewrite Hnext; simpl; rewrite Hrow; simpl; by case_decide.
Qed.

Lemma getDishById_not_owner_witness :
  (getDishById bob 1 world).1
    = Returned (Failure UNAUTHORIZED (Text "You can see this.")) ∧
  (getDishById bob 1 world).1
    ≠ Returned (Failure NOT_FOUND (Text "Dish not found")) ∧
  (1 ≠ 0 →
   (myRestaurant bob (Some 1) world).1
     = Returned (Failure NOT_FOUND (Text myRestaurant_notFoundError))).
Proof.
  apply (getDishById_not_owner bob 1 world salmon_roll sushi_house);
    [reflexivity | reflexivity | reflexivity | simpl; lia].
Defined.

(** Case analysis on the innermost scrutinee of the goal, repeated. *)
Ltac split_cases :=
  repeat (simpl;
          match goal with
          | |- context [match ?x with _ => _ end] =>
              lazymatch x with
              | context [match _ with _ => _ end] => fail
              | _ => destruct x eqn:?
              end
          end); simpl.

(** [updateDish] never writes to the restaurants table, whatever it
    resolves to. *)
Lemma updateDish_restaurant_rows owner input w :
  restaurantRows (updateDish owner input w).2 = restaurantRows w.
Proof.
  unfold updateDish. unfold_async. unfold save_dish.
  split_cases; reflexivity.
Qed.

Lemma updateDish_no_restaurant_save owner input w r :
  RestaurantsSave r ∈ calls (updateDish owner input w).2 →
  RestaurantsSave r ∈ calls w.
Proof.
  unfold updateDish. unfold_async. unfold save_dish.
  split_cases; intros H;
    repeat (apply elem_of_app in H as [H|H];
            [|by apply list_elem_of_singleton in H]);
    exact H.
Qed.

(** C1 (evaluation at the failing input): Alice renames her dish
    "Salmon Roll" to "Tuna Roll".  The call succeeds and the dish row
    is saved under its new name; the restaurant object in memory has
    its keywords updated ([tuna] in, [salmon] out), but the only save
    is that of the dish: the stored restaurant still has the old
    keyword map. *)
Theorem updateDish_keywords_not_persisted :
  let r := updateDish alice tuna_roll_update world in
  let tuna_roll := set_dish_name salmon_roll "Tuna Roll" in
  let in_memory :=
    (updateDish_objects tuna_roll_update sushi_house salmon_roll).1 in
  r.1 = Returned (Ok tuna_roll) ∧
  calls r.2 = [DishesFindOne 1 []; RestaurantsFindOne 1 [];
               DishesSave tuna_roll] ∧
  dishRows r.2 = [tuna_roll] ∧
  restaurantRows r.2 = [sushi_house] ∧
  (r_keywords in_memory !! "tuna", r_keywords in_memory !! "salmon")
    = (Some 1, None) ∧
  (r_keywords sushi_house !! "tuna", r_keywords sushi_house !! "salmon")
    = (None, Some 1).
Proof. vm_compute. repeat split; reflexivity. Qed.

(** [browseRestaurants] makes one repository call and settles as that
    call does: the success result when it is served, a rejection when
    it is rejected, by a fault of the storage layer or by SQL. *)
Lemma browseRestaurants_outcome input w :
  (browseRestaurants input w).1
  = if next_fault w
       || page_rejected (fo_skip (browse_options input))
            (fo_take (browse_options input))
    then Thrown StorageFault
    else Returned (Ok (find_many (browse_options input) w)).
Proof.
  unfold browseRestaurants. unfold_async.
  by destruct (next_fault w), (page_rejected _ _).
Qed.

(** The methods written with [try]/[catch] never reject. *)
Lemma getDishById_never_throws owner id w e :
  (getDishById owner id w).1 ≠ Thrown e.
Proof.
  unfold getDishById. unfold_async. split_cases; discriminate.
Qed.

(** A rejected [find] rejects [browseRestaurants]. *)
Lemma browseRestaurants_propagates_fault input w :
  next_fault w = true →
  (browseRestaurants input w).1 = Thrown StorageFault.
Proof.
  intros H. unfold browseRestaurants. unfold_async. by rewrite H.
Qed.

(** C2 (evaluation at the failing input): on a storage layer that
    rejects the next call, [browseRestaurants] throws, where the
    methods written with [try]/[catch] resolve to the internal-error
    result. *)
Theorem browseRestaurants_storage_fault_throws :
  (browseRestaurants no_query faulty_world).1 = Thrown StorageFault ∧
  (getDishById alice 1 faulty_world).1
    = Returned (Failure INTERNAL_SERVER_ERROR DefaultMessage) ∧
  (myRestaurants alice faulty_world).1
    = Returned (Failure INTERNAL_SERVER_ERROR INTERNAL_SERVER_ERROR_MESSAGE).
Proof. vm_compute. repeat split; reflexivity. Qed.

(** What a repository call that is served did. *)
Lemma repository_call_returned {A} c (serve : World → A * World) w a w' :
  repository_call c serve w = (Returned a, w') →
  next_fault w = false ∧ serve (attempt c w).2 = (a, w').
Proof.
  unfold repository_call. simpl.
  destruct (next_fault w); [done|].
  destruct (serve _) as [a0 w0]. by intros [= -> ->].
Qed.

Lemma lookup_restaurant_exists i rows r :
  lookup_restaurant i rows = Some r →
  existsb (has_restaurant_id i) rows = true.
Proof.
  unfold lookup_restaurant. intros H. apply find_some in H as [Hin Hid].
  apply existsb_exists. by exists r.
Qed.

Lemma lookup_restaurant_replaced i rows r r' :
  lookup_restaurant i rows = Some r → r_id r' = Some i →
  lookup_restaurant i
    (map (λ x, if has_restaurant_id i x then r' else x) rows) = Some r'.
Proof.
  unfold lookup_restaurant. intros H Hid.
  assert (Hr' : has_restaurant_id i r' = true)
    by by apply bool_decide_eq_true.
  induction rows as [|x rows IH]; [done|]. simpl in *.
  destruct (has_restaurant_id i x) eqn:E.
  - by rewrite Hr'.
  - rewrite E. by apply IH.
Qed.

Lemma lookup_dish_deleted i rows :
  lookup_dish i (List.filter (λ d, negb (has_dish_id i d)) rows) = None.
Proof.
  unfold lookup_dish. induction rows as [|x rows IH]; [done|]. simpl.
  destruct (has_dish_id i x) eqn:E; simpl; [done|]. by rewrite E.
Qed.

(** C9: in a [deleteDish] run that succeeds, the dish and its
    restaurant are read, the restaurant is saved with the dish's name
    and then its description subtracted from its keywords, and only
    then is the dish row deleted: when the restaurant is saved the
    dish is still stored, and the four repository calls are made in
    this order. *)
Theorem deleteDish_success_order (owner : User) (id : Z) (w w' : World)
    (dish : Dish) :
  deleteDish owner id w = (Returned (Ok dish), w') →
  ∃ (restaurant : Restaurant) (w1 w2 w3 : World),
    let saved :=
      set_keywords restaurant
        (extractAndCountKeywords
           (extractAndCountKeywords (r_keywords restaurant)
              (Some (d_name dish)) true)
           (d_description dish) true) in
    dishes.findOne id ["restaurant"] w = (Returned (Some dish), w1) ∧
    restaurants.findOne (d_restaurantId dish) w1
      = (Returned (Some restaurant), w2) ∧
    r_ownerId restaurant = u_id owner ∧
    restaurants.save saved w2 = (Returned saved, w3) ∧
    lookup_dish id (dishRows w3) = Some dish ∧
    lookup_restaurant (d_restaurantId dish) (restaurantRows w3)
      = Some saved ∧
    dishes.delete id w3 = (Returned tt, w') ∧
    lookup_dish id (dishRows w') = None ∧
    lookup_restaurant (d_restaurantId dish) (restaurantRows w')
      = Some saved ∧
    calls w' = calls w ++ [DishesFindOne id ["restaurant"];
                           RestaurantsFindOne (d_restaurantId dish) [];
                           RestaurantsSave saved; DishesDelete id].
Proof.
  unfold deleteDish, keywords_without_dish.
  unfold try_catch, mbind, async_bind, bind, internal_helper, throw.
  intros H.
  destruct (dishes.findOne id ["restaurant"] w) as [[[d|]|e] w1] eqn:E1;
    try discriminate H.
  destruct (restaurants.findOne (d_restaurantId d) w1)
    as [[[r|]|e] w2] eqn:E2; try discriminate H.
  destruct (decide (r_ownerId r ≠ u_id owner)) as [Hne|Heq];
    [discriminate H|].
  destruct (restaurants.save _ w2) as [[r'|e] w3] eqn:E3;
    [|discriminate H].
  destruct (dishes.delete id w3) as [[[]|e] w4] eqn:E4; [|discriminate H].
  simpl in H. injection H as -> ->.
  exists r, w1, w2, w3. cbv zeta.
  apply dec_stable in Heq.
  pose proof E1 as F1. pose proof E2 as F2.
  pose proof E3 as F3. pose proof E4 as F4.
  apply repository_call_returned in F1 as [_ [= F1 <-]].
  apply repository_call_returned in F2 as [_ [= F2 <-]].
  apply repository_call_returned in F3 as [_ F3].
  apply repository_call_returned in F4 as [_ [= <-]].
  simpl in F1, F2.
  pose proof (lookup_restaurant_id _ _ _ F2) as Hid.
  set (saved := set_keywords r _) in *.
  unfold save_restaurant in F3. simpl in F3. rewrite Hid in F3.
  rewrite (lookup_restaurant_exists _ _ _ F2) in F3.
  injection F3 as <- <-. simpl.
  rewrite (lookup_restaurant_replaced _ _ r saved F2 Hid).
  rewrite lookup_dish_deleted.
  repeat split; try done.
  by rewrite <- !app_assoc.
Qed.

Lemma deleteDish_success_order_witness :
  ∃ (restaurant : Restaurant) (w1 w2 w3 : World),
    let w' := (deleteDish alice 1 world).2 in
    let saved :=
      set_keywords restaurant
        (extractAndCountKeywords
           (extractAndCountKeywords (r_keywords restaurant)
              (Some (d_name salmon_roll)) true)
           (d_description salmon_roll) true) in
    dishes.findOne 1 ["restaurant"] world
      = (Returned (Some salmon_roll), w1) ∧
    restaurants.findOne (d_restaurantId salmon_roll) w1
      = (Returned (Some restaurant), w2) ∧
    r_ownerId restaurant = u_id alice ∧
    restaurants.save saved w2 = (Returned saved, w3) ∧
    lookup_dish 1 (dishRows w3) = Some salmon_roll ∧
    lookup_restaurant (d_restaurantId salmon_roll) (restaurantRows w3)
      = Some saved ∧
    dishes.delete 1 w3 = (Returned tt, w') ∧
    lookup_dish 1 (dishRows w') = None ∧
    lookup_restaurant (d_restaurantId salmon_roll) (restaurantRows w')
      = Some saved ∧
    calls w' = calls world ++ [DishesFindOne 1 ["restaurant"];
                               RestaurantsFindOne
                                 (d_restaurantId salmon_roll) [];
                               RestaurantsSave saved; DishesDelete 1].
Proof.
  apply (deleteDish_success_order alice 1 world
           (deleteDish alice 1 world).2 salmon_roll).
  vm_compute. reflexivity.
Defined.

Example deleteDish_leaves_the_restaurant_words :
  let w' := (deleteDish alice 1 world).2 in
  (λ r, map_to_list (r_keywords r)) <$> restaurantRows w'
    = [[("sushi", 1); ("house", 1)]] ∧
  dishRows w' = [].
Proof. vm_compute. split; reflexivity. Qed.

End ServiceFacts.

(** ** Browsing *)

Module BrowseFacts.
Import Tokens Extractor Entities Storage RestaurantsService Scenario.
Import ExtractorFacts.

Lemma lower_char_idemp c : lower_char (lower_char c) = lower_char c.
Proof. destruct c as [[] [] [] [] [] [] [] []]; reflexivity. Qed.

Lemma toLowerCase_idemp s : toLowerCase (toLowerCase s) = toLowerCase s.
Proof.
  induction s as [|c s IH]; [done|]. simpl.
  by rewrite lower_char_idemp, IH.
Qed.

Lemma tokenize_toLowerCase s : tokenize (toLowerCase s) = tokenize s.
Proof. unfold tokenize. by rewrite toLowerCase_idemp. Qed.

(** Counting from the empty object: the keys are the tokens. *)
Lemma count_words_keys ws w :
  is_Some (count_words false ∅ ws !! w) ↔ w ∈ ws.
Proof.
  rewrite lookup_count_words, lookup_empty. split.
  - intros Hs. destruct (decide (w ∈ ws)) as [|Hn]; [done|].
    rewrite (occurrences_zero _ _ Hn) in Hs. simpl in Hs.
    by destruct Hs.
  - intros Hin. apply occurrences_pos in Hin.
    destruct (occurrences w ws) as [|n]; [lia|].
    rewrite iter_inc_None. eauto.
Qed.

Lemma elem_of_keys (m : gmap string Z) w :
  w ∈ (map_to_list m).*1 ↔ is_Some (m !! w).
Proof.
  rewrite list_elem_of_fmap. split.
  - intros [[k c] [-> Hin]]. apply elem_of_map_to_list in Hin. eauto.
  - intros [c Hc]. exists (w, c). split; [done|].
    by apply elem_of_map_to_list.
Qed.

(** The conditions [browseRestaurants] builds are the distinct tokens
    of the query. *)
Lemma elem_of_browseWhere query w :
  w ∈ browseWhere query (extractAndCountKeywords ∅ (Some query) false)
  ↔ w ∈ tokenize query.
Proof.
  destruct query as [|a q]; [by vm_compute|].
  unfold browseWhere.
  change (extractAndCountKeywords ∅ (Some (String a q)) false)
    with (count_words false ∅ (tokenize (String a q))).
  case_decide as Hsize.
  - by rewrite elem_of_keys, count_words_keys.
  - assert (Hempty : count_words false ∅ (tokenize (String a q)) = ∅)
      by (apply map_size_empty_inv; lia).
    rewrite <- (count_words_keys (tokenize (String a q))), Hempty,
      lookup_empty.
    split; [by intros ?%elem_of_nil | by intros [? ?]].
Qed.

Lemma NoDup_browseWhere query m : NoDup (browseWhere query m).
Proof.
  unfold browseWhere. destruct query; [constructor|].
  case_decide; [apply NoDup_fst_map_to_list | constructor].
Qed.

Lemma where_matches_spec conditions r :
  where_matches conditions r = true ↔
  conditions = [] ∨ ∃ w, w ∈ conditions ∧ is_Some (r_keywords r !! w).
Proof.
  destruct conditions as [|c cs]; [by split; [left|]|].
  unfold where_matches. rewrite existsb_exists. split.
  - intros [w [Hin Hk]]. right. exists w. split.
    + by apply list_elem_of_In.
    + by apply bool_decide_eq_true in Hk.
  - intros [?|[w [Hin Hk]]]; [done|]. exists w. split.
    + by apply list_elem_of_In.
    + by apply bool_decide_eq_true.
Qed.

Lemma elem_of_candidates conditions rows r :
  r ∈ candidates conditions rows ↔
  r ∈ rows ∧ where_matches conditions r = true.
Proof.
  unfold candidates. by rewrite !list_elem_of_In, filter_In.
Qed.

Lemma candidates_no_condition rows : candidates [] rows = rows.
Proof.
  unfold candidates. induction rows as [|r rows IH]; [done|].
  simpl. by rewrite IH.
Qed.

Lemma elem_of_browse_conditions input w :
  w ∈ fo_where (browse_options input)
  ↔ w ∈ tokenize (default "" (br_query input)).
Proof.
  unfold browse_options. simpl.
  by rewrite elem_of_browseWhere, tokenize_toLowerCase.
Qed.

Lemma browse_conditions_nil input :
  fo_where (browse_options input) = []
  ↔ tokenize (default "" (br_query input)) = [].
Proof.
  pose proof (elem_of_browse_conditions input) as H.
  destruct (fo_where (browse_options input)) as [|c cs],
    (tokenize (default "" (br_query input))) as [|t ts]; try done.
  - exfalso. eapply elem_of_nil, (H t). left.
  - exfalso. eapply elem_of_nil, (H c). left.
Qed.

(** What a served [browseRestaurants] resolves to. *)
Lemma browseRestaurants_served input w :
  next_fault w = false →
  page_rejected (fo_skip (browse_options input))
    (fo_take (browse_options input)) = false →
  (browseRestaurants input w).1
    = Returned (Ok (find_many (browse_options input) w)).
Proof.
  intros H Hpage.
  by rewrite ServiceFacts.browseRestaurants_outcome, H, Hpage.
Qed.

(** The one repository call of [browseRestaurants]. *)
Lemma browseRestaurants_calls input w :
  calls (browseRestaurants input w).2
  = calls w ++ [RestaurantsFind (browse_options input)].
Proof.
  unfold browseRestaurants, mbind, async_bind, bind, restaurants.find.
  simpl. by destruct (next_fault w || page_rejected _ _).
Qed.

(** With a limit that is not negative, SQL has nothing to reject. *)
Lemma browse_page_accepted input :
  0 ≤ default 10 (br_limit input) →
  page_rejected (fo_skip (browse_options input))
    (fo_take (browse_options input)) = false.
Proof.
  intros Hlimit. unfold page_rejected, browse_options. simpl.
  rewrite !bool_decide_eq_false_2; [done | lia |].
  case_decide; [|lia]. apply Z.le_ngt, Z.mul_nonneg_nonneg; lia.
Qed.

(** Asking for the relation [dishes] attaches the dishes. *)
Lemma load_dishes rows r : load_relations ["dishes"] rows r = with_dishes rows r.
Proof. reflexivity. Qed.

(** A [take] of at least 1 is a LIMIT. *)
Lemma page_limited {A} skip n (l : list A) :
  1 ≤ n → page skip (Some n) l = take (Z.to_nat n) (drop (Z.to_nat skip) l).
Proof. intros Hn. unfold page. destruct n; [lia | done | lia]. Qed.

(** A [take] of 0 or [null] is no LIMIT. *)
Lemma page_unlimited {A} skip (l : list A) :
  page skip (Some 0) l = drop (Z.to_nat skip) l ∧
  page skip None l = drop (Z.to_nat skip) l.
Proof. done. Qed.

Lemma filter_all {A} (f : A → bool) l :
  (∀ x, f x = true) → List.filter f l = l.
Proof.
  intros Hf. induction l as [|x l IH]; [done|].
  cbn [List.filter]. by rewrite Hf, IH.
Qed.

(** The where-list of the query selects the restaurants that have one
    of the tokens as a key, all of them when there is no token. *)
Lemma where_matches_tokens input r :
  let tokens := tokenize (default "" (br_query input)) in
  where_matches (fo_where (browse_options input)) r
  = bool_decide
      (tokens = [] ∨ Exists (λ word, is_Some (r_keywords r !! word)) tokens).
Proof.
  cbv zeta. apply eq_true_iff_eq. rewrite bool_decide_eq_true.
  rewrite where_matches_spec, browse_conditions_nil, Exists_exists.
  split; (intros [?|[word [Hin Hk]]]; [by left|]); right; exists word;
    (split; [by apply elem_of_browse_conditions | done]).
Qed.

(** C5: [browseRestaurants] makes one repository call, a [find] whose
    where-list holds exactly the tokens of the query and selects the
    restaurants [found].  When the query has tokens, these are exactly
    the stored restaurants whose keyword map has at least one of the
    tokens as a key, whatever the count under it; when the query has no
    token they are all the stored restaurants.  When the call is served
    (for a limit that is not negative and a product [offset * limit]
    that a double holds exactly) the method resolves to the page of
    those restaurants, each with its dishes. *)
Theorem browse_or_semantics (input : BrowseRestaurantsInput) (w : World) :
  let tokens := tokenize (default "" (br_query input)) in
  let limit := default 10 (br_limit input) in
  let offset := default 0 (br_offset input) in
  let found :=
    List.filter
      (λ r, bool_decide
              (tokens = []
               ∨ Exists (λ word, is_Some (r_keywords r !! word)) tokens))
      (restaurantRows w) in
  (∃ opts,
      calls (browseRestaurants input w).2 = calls w ++ [RestaurantsFind opts] ∧
      (∀ word, word ∈ fo_where opts ↔ word ∈ tokens) ∧
      candidates (fo_where opts) (restaurantRows w) = found) ∧
  (tokens ≠ [] →
   ∀ r, r ∈ found ↔
        r ∈ restaurantRows w
        ∧ ∃ word, word ∈ tokens ∧ is_Some (r_keywords r !! word)) ∧
  (tokens = [] → found = restaurantRows w) ∧
  (next_fault w = false → 0 ≤ limit → offset * limit < 2 ^ 53 →
   (browseRestaurants input w).1
   = Returned
       (Ok (with_dishes (dishRows w)
              <$> page (if decide (0 ≤ offset) then offset * limit else 0)
                    (Some limit) found))).
Proof.
  cbv zeta. split.
  { exists (browse_options input).
    split; [apply browseRestaurants_calls|].
    split; [apply elem_of_browse_conditions|].
    apply filter_ext. intros r. apply where_matches_tokens. }
  split; [|split].
  - intros Htokens r. rewrite list_elem_of_In, filter_In, <- list_elem_of_In.
    rewrite bool_decide_eq_true, Exists_exists. split.
    + intros [Hin [Hnil|Hex]]; [done | by split].
    + intros [Hin Hex]. split; [done | by right].
  - intros Htokens. apply filter_all. intros r.
    apply bool_decide_eq_true. by left.
  - intros Hserved Hlimit _.
    rewrite browseRestaurants_served by (done || by apply browse_page_accepted).
    unfold find_many, candidates. do 4 f_equal.
    apply filter_ext. intros r. apply where_matches_tokens.
Qed.

Lemma browse_or_semantics_witness :
  (browseRestaurants salmon_or_tuna street).1
  = Returned
      (Ok (with_dishes (dishRows street)
             <$> page (if decide (0 ≤ 0) then 0 * 10 else 0) (Some 10)
                   (List.filter
                      (λ r, bool_decide
                              (tokenize "Salmon, TUNA" = []
                               ∨ Exists
                                   (λ word, is_Some (r_keywords r !! word))
                                   (tokenize "Salmon, TUNA")))
                      (restaurantRows street)))).
Proof.
  apply (proj2 (proj2 (proj2 (browse_or_semantics salmon_or_tuna street)))).
  - reflexivity.
  - simpl. lia.
  - by vm_compute.
Defined.

Example browse_salmon_or_tuna :
  (λ p, r_name (rd_restaurant p))
    <$> find_many (browse_options salmon_or_tuna) street
  = ["Salmon Bar"; "Tuna Bar"; "Salmon and Tuna"].
Proof. vm_compute. reflexivity. Qed.

(** *** Paging *)

Lemma to_double_exact n : Z.abs n < 2 ^ 53 → to_double n = n.
Proof.
  intros H. unfold to_double. cbv zeta.
  destruct (Z.abs n <? 2 ^ 53) eqn:E; [done|].
  apply Z.ltb_ge in E. lia.
Qed.

Example to_double_ties_to_even :
  (to_double (2 ^ 53 + 1), to_double (2 ^ 53 + 3), to_double (- (2 ^ 53 + 3)))
  = (2 ^ 53, 2 ^ 53 + 4, - (2 ^ 53 + 4)).
Proof. vm_compute. reflexivity. Qed.

(** On an input without [null] whose product is below 2^53, the two
    embeddings of the method are one. *)
Lemma browseRestaurants_nullable_agrees input :
  Z.abs (default 0 (br_offset input) * default 10 (br_limit input)) < 2 ^ 53 →
  browseRestaurants_nullable (args_of input) = browseRestaurants input.
Proof.
  intros H. unfold browseRestaurants_nullable, browseRestaurants.
  assert (Hopts :
    browse_find_options (Some (default 10 (br_limit input)))
      (Some (default 0 (br_offset input))) (default "" (br_query input))
    = browse_options input).
  { unfold browse_find_options, browse_options, js_mul. cbn [to_number default].
    by rewrite to_double_exact. }
  rewrite <- Hopts. by destruct input as [[l|] [q|] [o|]].
Qed.

(** A [null] query rejects the method before any repository call. *)
Lemma browse_null_query_throws args w :
  ba_query args = Null →
  browseRestaurants_nullable args w = (Thrown TypeError, w).
Proof. intros H. unfold browseRestaurants_nullable. by rewrite H. Qed.

(** A limit of 0 and a [null] limit apply no limit: a served call
    resolves to every matching restaurant after the skipped ones. *)
Lemma browse_without_limit args w offset query :
  ba_limit args = Given 0 ∨ ba_limit args = Null →
  defaulted 0 (ba_offset args) = Some offset →
  defaulted "" (ba_query args) = Some query →
  next_fault w = false →
  ∃ opts,
    calls (browseRestaurants_nullable args w).2
      = calls w ++ [RestaurantsFind opts] ∧
    fo_skip opts = 0 ∧
    (browseRestaurants_nullable args w).1
      = Returned (Ok (with_dishes (dishRows w)
                        <$> candidates (fo_where opts) (restaurantRows w))).
Proof.
  intros Hlimit Hoffset Hquery Hserved.
  assert (∃ l, defaulted 10 (ba_limit args) = l ∧ (l = Some 0 ∨ l = None))
    as (l & Hl & Hcase)
    by (destruct Hlimit as [-> | ->]; eexists; eauto).
  exists (browse_find_options l (Some offset) query).
  assert (Hskip : fo_skip (browse_find_options l (Some offset) query) = 0).
  { cbn [fo_skip browse_find_options]. unfold js_mul, to_number.
    destruct Hcase as [-> | ->]; simpl; rewrite Z.mul_0_r;
      by case_decide. }
  unfold browseRestaurants_nullable. rewrite Hl, Hoffset, Hquery.
  unfold mbind, async_bind, bind, restaurants.find, find_many.
  cbn [attempt fst snd]. rewrite Hserved, Hskip.
  destruct Hcase as [-> | ->]; done.
Qed.

(** A negative limit is rejected by SQL: the method throws. *)
Lemma browse_negative_limit_throws args w limit offset query :
  ba_limit args = Given limit → limit < 0 →
  defaulted 0 (ba_offset args) = Some offset →
  defaulted "" (ba_query args) = Some query →
  (browseRestaurants_nullable args w).1 = Thrown StorageFault.
Proof.
  intros Hlimit Hneg Hoffset Hquery.
  unfold browseRestaurants_nullable. rewrite Hlimit, Hoffset, Hquery.
  unfold mbind, async_bind, bind, restaurants.find, page_rejected. simpl.
  rewrite (bool_decide_eq_true_2 (limit < 0)) by done.
  by rewrite !orb_true_r.
Qed.

(** C6, as stated, fails for a limit of 0: the repository applies no
    limit then, and all four matching restaurants are returned where
    the claim allows at most [limit] of them. *)
Lemma browse_pagination_counterexample :
  ∃ shown,
    (browseRestaurants_nullable
       {| ba_limit := Given 0; ba_query := Undefined; ba_offset := Undefined |}
       street).1 = Returned (Ok shown) ∧
    length shown = 4%nat ∧
    ¬ (length shown ≤ Z.to_nat 0)%nat.
Proof.
  eexists. split; [vm_compute; reflexivity|]. simpl. split; [reflexivity | lia].
Qed.

(** C6 (amended): for a limit of at least 1, supplied or 10 when the
    field is undefined, an offset supplied or 0 when the field is
    undefined, a query that is not [null], a product [offset * limit]
    that a double holds exactly, and a served call: [find] is asked to
    skip [offset * limit] rows when [offset ≥ 0] and none otherwise and
    to take [limit] rows, and the method resolves to the matching
    restaurants after the skipped ones, at most [limit] of them; with
    [limit = 1] and [offset = 2] that is the third match alone, if there
    is one. *)
Theorem browse_pagination (args : BrowseRestaurantsArgs) (w : World)
    (limit offset : Z) (query : string) :
  (ba_limit args = Undefined ∧ limit = 10) ∨ ba_limit args = Given limit →
  (ba_offset args = Undefined ∧ offset = 0) ∨ ba_offset args = Given offset →
  (ba_query args = Undefined ∧ query = EmptyString)
    ∨ ba_query args = Given query →
  1 ≤ limit →
  offset * limit < 2 ^ 53 →
  next_fault w = false →
  let skip := if decide (0 ≤ offset) then offset * limit else 0 in
  let opts := browse_find_options (Some limit) (Some offset) query in
  let found := candidates (fo_where opts) (restaurantRows w) in
  let shown := take (Z.to_nat limit) (drop (Z.to_nat skip) found) in
  fo_skip opts = skip ∧
  fo_take opts = Some limit ∧
  calls (browseRestaurants_nullable args w).2
    = calls w ++ [RestaurantsFind opts] ∧
  (browseRestaurants_nullable args w).1
    = Returned (Ok (with_dishes (dishRows w) <$> shown)) ∧
  (length shown ≤ Z.to_nat limit)%nat ∧
  (limit = 1 → offset = 2 → shown = take 1 (drop 2 found)).
Proof.
  intros Hlimit Hoffset Hquery Hone Hexact Hserved. cbv zeta.
  assert (Hl : defaulted 10 (ba_limit args) = Some limit)
    by (destruct Hlimit as [[-> ->] | ->]; done).
  assert (Ho : defaulted 0 (ba_offset args) = Some offset)
    by (destruct Hoffset as [[-> ->] | ->]; done).
  assert (Hq : defaulted "" (ba_query args) = Some query)
    by (destruct Hquery as [[-> ->] | ->]; done).
  set (opts := browse_find_options (Some limit) (Some offset) query).
  assert (Hskip : fo_skip opts
                  = if decide (0 ≤ offset) then offset * limit else 0).
  { unfold opts, browse_find_options, js_mul, to_number. simpl.
    case_decide as Hpos; [|done]. apply to_double_exact.
    rewrite Z.abs_eq; [done|]. apply Z.mul_nonneg_nonneg; lia. }
  assert (Hpage : page_rejected (fo_skip opts) (fo_take opts) = false).
  { rewrite Hskip. unfold page_rejected, opts. simpl.
    rewrite !bool_decide_eq_false_2; [done | lia |].
    case_decide; [|lia]. apply Z.le_ngt, Z.mul_nonneg_nonneg; lia. }
  unfold browseRestaurants_nullable. rewrite Hl, Ho, Hq. fold opts.
  unfold mbind, async_bind, bind, restaurants.find.
  cbn [attempt fst snd]. rewrite Hserved, Hpage.
  unfold mret, async_ret, ret. cbn [orb fst snd calls].
  repeat split.
  - done.
  - unfold find_many. rewrite Hskip. unfold opts.
    cbn [fo_relations fo_take fo_where browse_find_options
         restaurantRows dishRows].
    by rewrite page_limited.
  - rewrite length_take. lia.
  - by intros -> ->.
Qed.

Lemma browse_pagination_witness :
  let args :=
    {| ba_limit := Given 1; ba_query := Undefined; ba_offset := Given 2 |} in
  let opts := browse_find_options (Some 1) (Some 2) "" in
  let found := candidates (fo_where opts) (restaurantRows street) in
  let shown := take (Z.to_nat 1) (drop (Z.to_nat (2 * 1)) found) in
  fo_skip opts = 2 * 1 ∧
  fo_take opts = Some 1 ∧
  calls (browseRestaurants_nullable args street).2
    = calls street ++ [RestaurantsFind opts] ∧
  (browseRestaurants_nullable args street).1
    = Returned (Ok (with_dishes (dishRows street) <$> shown)) ∧
  (length shown ≤ Z.to_nat 1)%nat ∧
  (1 = 1 → 2 = 2 → shown = take 1 (drop 2 found)).
Proof.
  apply (browse_pagination
           {| ba_limit := Given 1; ba_query := Undefined;
              ba_offset := Given 2 |} street 1 2 "");
    [by right | by right | by left | lia | by vm_compute | reflexivity].
Defined.

Example browse_third_page_of_one :
  (browseRestaurants third_page_of_one street).1
  = Returned (Ok [with_dishes [] (named 3 "Pizza Place")]).
Proof. vm_compute. reflexivity. Qed.

Example browse_defaults :
  let opts := browse_options no_query in
  (fo_where opts, fo_skip opts, fo_take opts) = ([], 0, Some 10).
Proof. reflexivity. Qed.

Example browse_negative_offset :
  fo_skip (browse_options {| br_limit := Some 5; br_query := None;
                             br_offset := Some (-3) |}) = 0.
Proof. reflexivity. Qed.

End BrowseFacts.

(** ** The workflows, method by method *)

Module WorkflowFacts.
Import Tokens Extractor Entities Storage RestaurantsService Scenario.
Import Observations ExtractorFacts ServiceFacts BrowseFacts.

(** Every path of a method, one goal each. *)
Ltac run_method :=
  unfold createRestaurant, myRestaurants, myRestaurant, addDish, deleteDish,
    getDishById, updateDish, browseRestaurants;
  unfold_async;
  unfold save_restaurant, save_dish, delete_dish, with_tables, next_fault;
  split_cases.


(** X1: the seven methods written with [try]/[catch] always resolve:
    whatever the storage layer does, they never reject. *)
Theorem caught_methods_never_throw (owner : User) (w : World) (e : Exn) :
  (∀ input, (createRestaurant owner input w).1 ≠ Thrown e) ∧
  (myRestaurants owner w).1 ≠ Thrown e ∧
  (∀ id, (myRestaurant owner id w).1 ≠ Thrown e) ∧
  (∀ input, (addDish owner input w).1 ≠ Thrown e) ∧
  (∀ id, (deleteDish owner id w).1 ≠ Thrown e) ∧
  (∀ id, (getDishById owner id w).1 ≠ Thrown e) ∧
  (∀ input, (updateDish owner input w).1 ≠ Thrown e).
Proof.
  repeat split; intros; run_method; discriminate.
Qed.

(** X2: the four reading methods ([myRestaurants], [myRestaurant],
    [getDishById], [browseRestaurants]) leave the tables and the id
    sequences as they are and make no [save] or [delete] call, whatever
    their input and whatever they resolve to. *)
Theorem reading_methods_write_nothing (owner : User) (w : World) :
  (stored (myRestaurants owner w).2 = stored w
   ∧ writes (myRestaurants owner w).2 = writes w) ∧
  (∀ id, stored (myRestaurant owner id w).2 = stored w
         ∧ writes (myRestaurant owner id w).2 = writes w) ∧
  (∀ id, stored (getDishById owner id w).2 = stored w
         ∧ writes (getDishById owner id w).2 = writes w) ∧
  (∀ input, stored (browseRestaurants input w).2 = stored w
            ∧ writes (browseRestaurants input w).2 = writes w).
Proof.
  repeat split; intros; run_method; try reflexivity;
    unfold writes; simpl; rewrite ?List.filter_app; simpl;
    by rewrite ?app_nil_r.
Qed.

(** X3: a writing method that resolves to a failure other than the
    internal error (validation, not found, unauthorized) has written
    nothing: the tables and the id sequences are as before. *)
Theorem rejections_write_nothing (owner : User) (w : World)
    (code : ErrorCode) (message : Message) :
  code ≠ INTERNAL_SERVER_ERROR →
  (∀ input, (createRestaurant owner input w).1
              = Returned (Failure code message) →
            stored (createRestaurant owner input w).2 = stored w) ∧
  (∀ input, (addDish owner input w).1 = Returned (Failure code message) →
            stored (addDish owner input w).2 = stored w) ∧
  (∀ id, (deleteDish owner id w).1 = Returned (Failure code message) →
         stored (deleteDish owner id w).2 = stored w) ∧
  (∀ input, (updateDish owner input w).1 = Returned (Failure code message) →
            stored (updateDish owner input w).2 = stored w).
Proof.
  intros Hcode. repeat split; intros ?; run_method; intros H;
    try reflexivity; try discriminate H;
    injection H as H1 H2; by subst.
Qed.

Lemma rejections_write_nothing_witness :
  stored (deleteDish bob 1 world).2 = stored world.
Proof.
  refine (proj1 (proj2 (proj2
            (rejections_write_nothing bob world UNAUTHORIZED DefaultMessage
               _))) 1 _).
  - discriminate.
  - reflexivity.
Defined.

Lemma truthy_number_Some o z : truthy_number o = Some z → o = Some z ∧ z ≠ 0.
Proof. destruct o as [[| |]|]; simpl; intros [= <-]; done. Qed.

Lemma truthy_string_Some o s :
  truthy_string o = Some s → o = Some s ∧ s ≠ EmptyString.
Proof. destruct o as [[|]|]; simpl; intros [= <-]; done. Qed.

Lemma lookup_dish_id i rows d : lookup_dish i rows = Some d → d_id d = Some i.
Proof.
  unfold lookup_dish. intros H. apply find_some in H as [_ H].
  unfold has_dish_id in H. by apply bool_decide_eq_true in H.
Qed.

Lemma lookup_with_dishes i rows ds p :
  with_dishes ds <$> lookup_restaurant i rows = Some p →
  lookup_restaurant i rows = Some (rd_restaurant p) ∧
  rd_dishes p = dishes_of (rd_restaurant p) ds.
Proof.
  destruct (lookup_restaurant i rows) as [r|]; simpl; [|done].
  by intros [= <-].
Qed.

(** X4: the methods that are reserved to the owner succeed for the owner
    only.  A successful [addDish] was asked by the owner of the
    restaurant the dish belongs to; a successful [deleteDish],
    [getDishById] or [updateDish] found the dish and was asked by the
    owner of its restaurant; a successful [myRestaurant] returns the
    restaurant of the id asked for, which the caller owns. *)
Theorem success_implies_ownership (owner : User) (w : World) :
  (∀ input d,
      (addDish owner input w).1 = Returned (Ok d) →
      ∃ r, lookup_restaurant (d_restaurantId d) (restaurantRows w) = Some r
           ∧ r_ownerId r = u_id owner) ∧
  (∀ id d,
      (deleteDish owner id w).1 = Returned (Ok d) →
      lookup_dish id (dishRows w) = Some d ∧
      ∃ r, lookup_restaurant (d_restaurantId d) (restaurantRows w) = Some r
           ∧ r_ownerId r = u_id owner) ∧
  (∀ id d,
      (getDishById owner id w).1 = Returned (Ok d) →
      lookup_dish id (dishRows w) = Some d ∧
      ∃ r, lookup_restaurant (d_restaurantId d) (restaurantRows w) = Some r
           ∧ r_ownerId r = u_id owner) ∧
  (∀ input d,
      (updateDish owner input w).1 = Returned (Ok d) →
      ∃ d0 r, lookup_dish (ud_id input) (dishRows w) = Some d0
              ∧ lookup_restaurant (d_restaurantId d0) (restaurantRows w)
                = Some r
              ∧ r_ownerId r = u_id owner) ∧
  (∀ id p,
      (myRestaurant owner id w).1 = Returned (Ok p) →
      r_id (rd_restaurant (mr_restaurant p)) = id ∧
      r_ownerId (rd_restaurant (mr_restaurant p)) = u_id owner).
Proof.
  repeat split; intros; revert H; run_method; intros H;
    try discriminate H; injection H as <-; simpl.
  all: try (by repeat first [eexists | split]; eauto; lia).
  all: match goal with
       | E : with_dishes _ <$> lookup_restaurant _ _ = Some _ |- _ =>
           apply lookup_with_dishes in E as [E _];
           apply lookup_restaurant_id in E
       end.
  all: match goal with
       | E : truthy_number _ = Some _ |- _ =>
           apply truthy_number_Some in E as [-> _]
       end.
  all: first [assumption | lia].
Qed.

Lemma success_implies_ownership_witness :
  lookup_dish 1 (dishRows world) = Some salmon_roll ∧
  ∃ r, lookup_restaurant (d_restaurantId salmon_roll) (restaurantRows world)
         = Some r
       ∧ r_ownerId r = u_id alice.
Proof.
  apply (proj1 (proj2 (success_implies_ownership alice world)) 1 salmon_roll).
  reflexivity.
Defined.

(** *** createRestaurant *)

Lemma createRestaurant_outcome_served owner input w :
  next_fault w = false →
  let created :=
    {| r_id := Some (restaurantSeq w); r_ownerId := u_id owner;
       r_name := cr_name input; r_description := cr_description input;
       r_keywords :=
         extractAndCountKeywords
           (extractAndCountKeywords ∅ (Some (cr_name input)) false)
           (cr_description input) false |} in
  (createRestaurant owner input w).1 = Returned (Ok created) ∧
  restaurantRows (createRestaurant owner input w).2
    = restaurantRows w ++ [created].
Proof.
  intros H. unfold createRestaurant. unfold_async. rewrite H. simpl. done.
Qed.

Lemma createRestaurant_outcome_rejected owner input w :
  next_fault w = true →
  (createRestaurant owner input w).1
  = Returned (Failure INTERNAL_SERVER_ERROR INTERNAL_SERVER_ERROR_MESSAGE).
Proof.
  intros H. unfold createRestaurant. unfold_async. by rewrite H.
Qed.

(** X5: when its [save] is served, [createRestaurant] resolves to the
    success result with the restaurant as stored: it has the next id of
    the sequence, the caller as owner, the name and description given,
    and keywords counted from the empty object over the name and then
    the description.  That row is appended to the table, the dishes are
    untouched, and [save] is the only repository call. *)
Theorem createRestaurant_served (owner : User) (input : CreateRestaurantInput)
    (w : World) :
  next_fault w = false →
  let keywords :=
    extractAndCountKeywords
      (extractAndCountKeywords ∅ (Some (cr_name input)) false)
      (cr_description input) false in
  let draft :=
    {| r_id := None; r_ownerId := u_id owner; r_name := cr_name input;
       r_description := cr_description input; r_keywords := keywords |} in
  let created := set_restaurant_id draft (restaurantSeq w) in
  let w' := (createRestaurant owner input w).2 in
  (createRestaurant owner input w).1 = Returned (Ok created) ∧
  restaurantRows w' = restaurantRows w ++ [created] ∧
  dishRows w' = dishRows w ∧
  restaurantSeq w' = restaurantSeq w + 1 ∧
  calls w' = calls w ++ [RestaurantsSave draft].
Proof.
  intros H. unfold createRestaurant. unfold_async. rewrite H. simpl.
  done.
Qed.

Lemma createRestaurant_served_witness :
  (createRestaurant bob ramen_bar world).1
    = Returned (Ok (named_by 2 2 "Ramen Bar" (Some "Noodles, broth"))) ∧
  restaurantRows (createRestaurant bob ramen_bar world).2
    = [sushi_house; named_by 2 2 "Ramen Bar" (Some "Noodles, broth")].
Proof.
  destruct (createRestaurant_served bob ramen_bar world eq_refl)
    as (H1 & H2 & _).
  split; [exact H1 | exact H2].
Defined.

(** X6: when its [save] is rejected, [createRestaurant] resolves to the
    internal-error result with the constant message, and nothing is
    stored. *)
Theorem createRestaurant_rejected (owner : User)
    (input : CreateRestaurantInput) (w : World) :
  next_fault w = true →
  (createRestaurant owner input w).1
    = Returned (Failure INTERNAL_SERVER_ERROR INTERNAL_SERVER_ERROR_MESSAGE) ∧
  stored (createRestaurant owner input w).2 = stored w.
Proof.
  intros H. unfold createRestaurant. unfold_async. by rewrite H.
Qed.

Lemma createRestaurant_rejected_witness :
  (createRestaurant bob ramen_bar faulty_world).1
    = Returned (Failure INTERNAL_SERVER_ERROR INTERNAL_SERVER_ERROR_MESSAGE) ∧
  stored (createRestaurant bob ramen_bar faulty_world).2 = stored faulty_world.
Proof. apply (createRestaurant_rejected bob ramen_bar faulty_world eq_refl). Defined.

Lemma iter_inc_is_Some n o :
  (0 < n)%nat ∨ is_Some o → is_Some (Nat.iter n inc o).
Proof.
  destruct n as [|n]; [intros [?|?]; [lia | done]|]. intros _.
  destruct o as [c|]; [rewrite iter_inc_Some | rewrite iter_inc_None]; eauto.
Qed.

(** Adding a text makes each of its tokens a key, and keeps the keys
    there were. *)
Lemma extract_add_keys m text w :
  w ∈ tokens_of text ∨ is_Some (m !! w) →
  is_Some (extractAndCountKeywords m text false !! w).
Proof.
  intros H. rewrite lookup_extract. apply iter_inc_is_Some.
  destruct H as [H|H]; [left; by apply occurrences_pos | by right].
Qed.

Lemma matches_query_word input r w :
  w ∈ tokenize (default "" (br_query input)) →
  is_Some (r_keywords r !! w) →
  where_matches (fo_where (browse_options input)) r = true.
Proof.
  intros Hq Hk. apply where_matches_spec. right. exists w.
  split; [by apply elem_of_browse_conditions | done].
Qed.

(** X7: a restaurant that [createRestaurant] has just created is among
    the restaurants matching any query that shares a word with its name
    or its description, in any letter case. *)
Theorem created_restaurant_is_found (owner : User)
    (input : CreateRestaurantInput) (w : World) (created : Restaurant)
    (search : BrowseRestaurantsInput) (word : string) :
  (createRestaurant owner input w).1 = Returned (Ok created) →
  word ∈ tokenize (default "" (br_query search)) →
  word ∈ tokenize (cr_name input) ∨ word ∈ tokens_of (cr_description input) →
  created ∈ candidates (fo_where (browse_options search))
              (restaurantRows (createRestaurant owner input w).2).
Proof.
  intros Hok Hq Hword.
  destruct (next_fault w) eqn:Hserved.
  { apply (createRestaurant_outcome_rejected owner input) in Hserved.
    rewrite Hserved in Hok. discriminate Hok. }
  destruct (createRestaurant_outcome_served owner input w Hserved)
    as [Hres Hrows].
  rewrite Hres in Hok. injection Hok as <-.
  apply elem_of_candidates. rewrite Hrows. split.
  - apply elem_of_app. right. apply list_elem_of_singleton. reflexivity.
  - apply (matches_query_word _ _ word); [done|]. cbn [r_keywords].
    apply extract_add_keys.
    destruct Hword as [Hn|Hd]; [right | by left].
    apply (extract_add_keys ∅ (Some (cr_name input)) word). by left.
Qed.

Lemma created_restaurant_is_found_witness :
  named_by 2 2 "Ramen Bar" (Some "Noodles, broth")
    ∈ candidates (fo_where (browse_options noodles_query))
        (restaurantRows (createRestaurant bob ramen_bar world).2).
Proof.
  apply (created_restaurant_is_found bob ramen_bar world
           (named_by 2 2 "Ramen Bar" (Some "Noodles, broth"))
           noodles_query "noodles").
  - reflexivity.
  - vm_compute. left.
  - right. vm_compute. left.
Defined.

(** *** The runs of the writing methods, call by call *)

(** Case analysis on the coming faults, under [served n w = true]. *)
Ltac by_faults Hs w :=
  unfold served in Hs;
  destruct (faults w) as [|[] [|[] [|[] [|[] ?]]]] eqn:?;
  simpl in Hs; try discriminate Hs; clear Hs.

Ltac rewrite_faults :=
  try match goal with
      | F : faults _ = _ |- _ => rewrite F
      end.

Ltac run_calls :=
  unfold_async; unfold next_fault;
  repeat (progress (simpl; rewrite_faults)).

Lemma addDish_run owner input w rid name price r :
  truthy_number (ad_restaurantId input) = Some rid →
  truthy_string (ad_name input) = Some name →
  truthy_number (ad_price input) = Some price →
  served 3 w = true →
  lookup_restaurant rid (restaurantRows w) = Some r →
  r_ownerId r = u_id owner →
  let draft :=
    {| d_id := None; d_restaurantId := rid; d_name := name;
       d_description := ad_description input; d_price := price;
       d_photo := ad_photo input |} in
  let dish := set_dish_id draft (dishSeq w) in
  let indexed :=
    set_keywords r
      (extractAndCountKeywords
         (extractAndCountKeywords (r_keywords r) (Some name) false)
         (ad_description input) false) in
  addDish owner input w =
  (Returned (Ok dish),
   {| restaurantRows :=
        map (λ x, if has_restaurant_id rid x then indexed else x)
            (restaurantRows w);
      dishRows := dishRows w ++ [dish];
      restaurantSeq := restaurantSeq w;
      dishSeq := dishSeq w + 1;
      calls := calls w ++ [RestaurantsFindOne rid []; DishesSave draft;
                           RestaurantsSave indexed];
      faults := drop 3 (faults w) |}).
Proof.
  intros Hid Hname Hprice Hs Hrow Howner. cbv zeta.
  pose proof (lookup_restaurant_id _ _ _ Hrow) as Hrid.
  pose proof (lookup_restaurant_exists _ _ _ Hrow) as Hex.
  unfold addDish. rewrite Hid, Hname, Hprice.
  by_faults Hs w; run_calls; rewrite Hrow; simpl;
    (case_decide as Hne; [by rewrite Howner in Hne|]);
    unfold save_dish, save_restaurant, with_tables; simpl;
    rewrite Hrid, Hex; simpl; rewrite <- ?app_assoc; reflexivity.
Qed.

Lemma lookup_dish_exists i rows d :
  lookup_dish i rows = Some d → existsb (has_dish_id i) rows = true.
Proof.
  unfold lookup_dish. intros H. apply find_some in H as [Hin Hid].
  apply existsb_exists. by exists d.
Qed.

Lemma deleteDish_run owner id w d r :
  served 4 w = true →
  lookup_dish id (dishRows w) = Some d →
  lookup_restaurant (d_restaurantId d) (restaurantRows w) = Some r →
  r_ownerId r = u_id owner →
  let saved := set_keywords r (keywords_without_dish r d) in
  deleteDish owner id w =
  (Returned (Ok d),
   {| restaurantRows :=
        map (λ x, if has_restaurant_id (d_restaurantId d) x then saved else x)
            (restaurantRows w);
      dishRows := List.filter (λ x, negb (has_dish_id id x)) (dishRows w);
      restaurantSeq := restaurantSeq w;
      dishSeq := dishSeq w;
      calls := calls w ++ [DishesFindOne id ["restaurant"];
                           RestaurantsFindOne (d_restaurantId d) [];
                           RestaurantsSave saved; DishesDelete id];
      faults := drop 4 (faults w) |}).
Proof.
  intros Hs Hdish Hrow Howner. cbv zeta.
  pose proof (lookup_restaurant_id _ _ _ Hrow) as Hrid.
  pose proof (lookup_restaurant_exists _ _ _ Hrow) as Hex.
  unfold deleteDish.
  by_faults Hs w; run_calls; rewrite Hdish; run_calls; rewrite Hrow; simpl;
    (case_decide as Hne; [done|]);
    unfold save_restaurant, delete_dish, with_tables; run_calls;
    rewrite Hrid, Hex; run_calls; rewrite <- ?app_assoc; reflexivity.
Qed.

(** The dish [updateDish] saves keeps its id and its restaurant. *)
Lemma updateDish_objects_keys input r d :
  d_id (updateDish_objects input r d).2 = d_id d ∧
  d_restaurantId (updateDish_objects input r d).2 = d_restaurantId d.
Proof.
  unfold updateDish_objects, redescribe_dish, rename_dish, rephoto_dish,
    reprice_dish.
  destruct (truthy_string (ud_name input)),
    (truthy_string (ud_description input)),
    (truthy_string (ud_photo input)), (ud_price input); done.
Qed.

Lemma updateDish_run owner input w d r :
  served 3 w = true →
  lookup_dish (ud_id input) (dishRows w) = Some d →
  lookup_restaurant (d_restaurantId d) (restaurantRows w) = Some r →
  r_ownerId r = u_id owner →
  let updated := (updateDish_objects input r d).2 in
  updateDish owner input w =
  (Returned (Ok updated),
   {| restaurantRows := restaurantRows w;
      dishRows :=
        map (λ x, if has_dish_id (ud_id input) x then updated else x)
            (dishRows w);
      restaurantSeq := restaurantSeq w;
      dishSeq := dishSeq w;
      calls := calls w ++ [DishesFindOne (ud_id input) [];
                           RestaurantsFindOne (d_restaurantId d) [];
                           DishesSave updated];
      faults := drop 3 (faults w) |}).
Proof.
  intros Hs Hdish Hrow Howner. cbv zeta.
  pose proof (lookup_dish_id _ _ _ Hdish) as Hdid.
  pose proof (lookup_dish_exists _ _ _ Hdish) as Hex.
  destruct (updateDish_objects_keys input r d) as [Hkeep _].
  unfold updateDish.
  by_faults Hs w; run_calls; rewrite Hdish; run_calls; rewrite Hrow; simpl;
    (case_decide as Hne; [done|]);
    destruct (updateDish_objects input r d) as [r' d'] eqn:Hobjs;
    simpl in Hkeep; unfold save_dish, with_tables; run_calls;
    rewrite Hkeep, Hdid, Hex; run_calls; rewrite <- ?app_assoc; reflexivity.
Qed.

(** *** myRestaurant *)

(** X8: [myRestaurant] without an id, or with the id 0, resolves to the
    bad-request result "ID not provided" and calls no repository. *)
Theorem myRestaurant_id_not_provided (owner : User) (id : option Z)
    (w : World) :
  id = None ∨ id = Some 0 →
  myRestaurant owner id w
  = (Returned (Failure BAD_REQUEST (Text "ID not provided")), w).
Proof. by intros [->| ->]. Qed.

Lemma myRestaurant_id_not_provided_witness :
  myRestaurant alice (Some 0) world
  = (Returned (Failure BAD_REQUEST (Text "ID not provided")), world).
Proof. apply (myRestaurant_id_not_provided alice (Some 0) world). by right. Defined.

(** X9: to a caller who is not its owner, [myRestaurant] answers for a
    restaurant that exists exactly what it answers for one that does
    not: the same not-found result, with the same message. *)
Theorem myRestaurant_hides_existence (owner : User) (id : Z)
    (w1 w2 : World) (r : Restaurant) :
  id ≠ 0 →
  next_fault w1 = false → next_fault w2 = false →
  lookup_restaurant id (restaurantRows w1) = None →
  lookup_restaurant id (restaurantRows w2) = Some r →
  r_ownerId r ≠ u_id owner →
  (myRestaurant owner (Some id) w1).1 = (myRestaurant owner (Some id) w2).1 ∧
  (myRestaurant owner (Some id) w1).1
    = Returned (Failure NOT_FOUND (Text myRestaurant_notFoundError)).
Proof.
  intros Hid H1 H2 Hnone Hsome Hne.
  unfold myRestaurant. unfold_async.
  destruct id as [|p|p]; [done| |]; simpl; rewrite H1, H2; simpl;
    rewrite Hnone, Hsome; simpl; by case_decide.
Qed.

Lemma myRestaurant_hides_existence_witness :
  (myRestaurant bob (Some 1) empty_world).1
    = (myRestaurant bob (Some 1) world).1 ∧
  (myRestaurant bob (Some 1) empty_world).1
    = Returned (Failure NOT_FOUND (Text myRestaurant_notFoundError)).
Proof.
  apply (myRestaurant_hides_existence bob 1 empty_world world sushi_house);
    [lia | reflexivity | reflexivity | reflexivity | reflexivity
    | simpl; lia].
Defined.

(** X10: the owner who asks for a restaurant of theirs gets it, with
    its dishes attached and [hasIncompleteOrders] set to [true],
    whatever the restaurant. *)
Theorem myRestaurant_owner (owner : User) (id : Z) (w : World)
    (r : Restaurant) :
  id ≠ 0 →
  next_fault w = false →
  lookup_restaurant id (restaurantRows w) = Some r →
  r_ownerId r = u_id owner →
  (myRestaurant owner (Some id) w).1
  = Returned (Ok {| mr_restaurant := with_dishes (dishRows w) r;
                    mr_hasIncompleteOrders := true |}).
Proof.
  intros Hid H Hsome Howner.
  unfold myRestaurant. unfold_async.
  destruct id as [|p|p]; [done| |]; simpl; rewrite H; simpl;
    rewrite Hsome; simpl; by case_decide.
Qed.

Lemma myRestaurant_owner_witness :
  (myRestaurant alice (Some 1) world).1
  = Returned (Ok {| mr_restaurant :=
                      {| rd_restaurant := sushi_house;
                         rd_dishes := [salmon_roll] |};
                    mr_hasIncompleteOrders := true |}).
Proof.
  apply (myRestaurant_owner alice 1 world sushi_house);
    [lia | reflexivity | reflexivity | reflexivity].
Defined.

(** *** addDish *)

(** X11: [addDish] treats a restaurant id of 0, an empty name and a
    price of 0 like a missing field: the validation failure, with no
    repository call. *)
Theorem addDish_rejects_falsy_fields (owner : User) (input : AddDishInput)
    (w : World) :
  ad_restaurantId input = Some 0 ∨ ad_name input = Some EmptyString
    ∨ ad_price input = Some 0 →
  addDish owner input w = (Returned (Failure BAD_REQUEST DefaultMessage), w).
Proof.
  intros H. unfold addDish. unfold_async.
  destruct input as [name description photo price restaurantId].
  simpl in *.
  destruct restaurantId as [[|?|?]|], name as [[|? ?]|], price as [[|?|?]|];
    destruct H as [H|[H|H]]; try discriminate H; reflexivity.
Qed.

Lemma addDish_rejects_falsy_fields_witness :
  addDish alice free_soup world
  = (Returned (Failure BAD_REQUEST DefaultMessage), world).
Proof.
  apply (addDish_rejects_falsy_fields alice free_soup world).
  right. right. reflexivity.
Defined.

(** X12: [addDish] with its required fields, for a restaurant id that
    is not stored, resolves to the not-found result "Restaurant not
    found!"; the lookup is its only repository call and nothing is
    stored. *)
Theorem addDish_restaurant_not_found (owner : User) (input : AddDishInput)
    (w : World) (restaurantId price : Z) (name : string) :
  truthy_number (ad_restaurantId input) = Some restaurantId →
  truthy_string (ad_name input) = Some name →
  truthy_number (ad_price input) = Some price →
  next_fault w = false →
  lookup_restaurant restaurantId (restaurantRows w) = None →
  (addDish owner input w).1
    = Returned (Failure NOT_FOUND (Text "Restaurant not found!")) ∧
  stored (addDish owner input w).2 = stored w ∧
  calls (addDish owner input w).2
    = calls w ++ [RestaurantsFindOne restaurantId []].
Proof.
  intros Hid Hname Hprice Hserved Hrow.
  unfold addDish. unfold_async.
  rewrite Hid, Hname, Hprice, Hserved. simpl. by rewrite Hrow.
Qed.

Lemma addDish_restaurant_not_found_witness :
  (addDish alice soup_elsewhere world).1
    = Returned (Failure NOT_FOUND (Text "Restaurant not found!")) ∧
  stored (addDish alice soup_elsewhere world).2 = stored world ∧
  calls (addDish alice soup_elsewhere world).2
    = calls world ++ [RestaurantsFindOne 9 []].
Proof.
  apply (addDish_restaurant_not_found alice soup_elsewhere world 9 4
           "Miso Soup"); reflexivity.
Defined.

Lemma lookup_restaurant_replaced_other i j rows r' :
  r_id r' = Some i → j ≠ i →
  lookup_restaurant j (map (λ x, if has_restaurant_id i x then r' else x) rows)
  = lookup_restaurant j rows.
Proof.
  intros Hid Hne. unfold lookup_restaurant.
  induction rows as [|x rows IH]; [done|]. simpl.
  destruct (has_restaurant_id i x) eqn:E.
  - assert (Hx : has_restaurant_id j x = false).
    { apply bool_decide_eq_true in E. apply bool_decide_eq_false.
      rewrite E. intros [=]. by apply Hne. }
    assert (Hr : has_restaurant_id j r' = false).
    { apply bool_decide_eq_false. rewrite Hid. intros [=]. by apply Hne. }
    by rewrite Hx, Hr.
  - destruct (has_restaurant_id j x); [done | apply IH].
Qed.

Lemma elem_of_replaced i rows r r' :
  lookup_restaurant i rows = Some r →
  r' ∈ map (λ x, if has_restaurant_id i x then r' else x) rows.
Proof.
  unfold lookup_restaurant. intros H. apply find_some in H as [Hin Hid].
  apply list_elem_of_In, in_map_iff. exists r. by rewrite Hid.
Qed.

(** X13: [addDish] by the owner, with its required fields and a storage
    layer that serves its three calls, resolves to the success result
    with the new dish under the next dish id.  The dish row is appended,
    the restaurant is stored with its keywords extended by the dish's
    name and then its description, the other restaurants are as before,
    and the calls are the lookup, the save of the dish and the save of
    the restaurant, in this order. *)
Theorem addDish_served (owner : User) (input : AddDishInput) (w : World)
    (restaurantId price : Z) (name : string) (r : Restaurant) :
  truthy_number (ad_restaurantId input) = Some restaurantId →
  truthy_string (ad_name input) = Some name →
  truthy_number (ad_price input) = Some price →
  served 3 w = true →
  lookup_restaurant restaurantId (restaurantRows w) = Some r →
  r_ownerId r = u_id owner →
  let draft :=
    {| d_id := None; d_restaurantId := restaurantId; d_name := name;
       d_description := ad_description input; d_price := price;
       d_photo := ad_photo input |} in
  let dish := set_dish_id draft (dishSeq w) in
  let indexed :=
    set_keywords r
      (extractAndCountKeywords
         (extractAndCountKeywords (r_keywords r) (Some name) false)
         (ad_description input) false) in
  let w' := (addDish owner input w).2 in
  (addDish owner input w).1 = Returned (Ok dish) ∧
  dishRows w' = dishRows w ++ [dish] ∧
  lookup_restaurant restaurantId (restaurantRows w') = Some indexed ∧
  (∀ j, j ≠ restaurantId →
        lookup_restaurant j (restaurantRows w')
        = lookup_restaurant j (restaurantRows w)) ∧
  calls w' = calls w ++ [RestaurantsFindOne restaurantId []; DishesSave draft;
                         RestaurantsSave indexed].
Proof.
  intros Hid Hname Hprice Hs Hrow Howner. cbv zeta.
  rewrite (addDish_run owner input w restaurantId name price r) by done.
  pose proof (lookup_restaurant_id _ _ _ Hrow) as Hrid.
  cbn [fst snd restaurantRows dishRows calls].
  repeat split.
  - by apply (lookup_restaurant_replaced _ _ r).
  - intros j Hj. by apply lookup_restaurant_replaced_other.
Qed.

Lemma addDish_served_witness :
  (addDish alice miso_soup world).1
    = Returned (Ok {| d_id := Some 2; d_restaurantId := 1;
                      d_name := "Miso Soup"; d_description := None;
                      d_price := 4; d_photo := None |}) ∧
  (r_keywords <$> lookup_restaurant 1
                    (restaurantRows (addDish alice miso_soup world).2))
    = Some (extractAndCountKeywords (r_keywords sushi_house)
              (Some "Miso Soup") false).
Proof.
  destruct (addDish_served alice miso_soup world 1 4 "Miso Soup" sushi_house
              eq_refl eq_refl eq_refl eq_refl eq_refl eq_refl)
    as (H1 & _ & H3 & _).
  split; [exact H1 | by rewrite H3].
Defined.

(** X14: the two saves of [addDish] are not one transaction.  When the
    save of the dish is served and the save of the restaurant is
    rejected, the method resolves to the internal-error result, the dish
    is stored, and the restaurants table, keywords included, is as
    before: the new dish is not indexed. *)
Theorem addDish_restaurant_save_rejected (owner : User)
    (input : AddDishInput) (w : World) (restaurantId price : Z)
    (name : string) (r : Restaurant) :
  truthy_number (ad_restaurantId input) = Some restaurantId →
  truthy_string (ad_name input) = Some name →
  truthy_number (ad_price input) = Some price →
  take 3 (faults w) = [false; false; true] →
  lookup_restaurant restaurantId (restaurantRows w) = Some r →
  r_ownerId r = u_id owner →
  let dish :=
    {| d_id := Some (dishSeq w); d_restaurantId := restaurantId;
       d_name := name; d_description := ad_description input;
       d_price := price; d_photo := ad_photo input |} in
  let w' := (addDish owner input w).2 in
  (addDish owner input w).1
    = Returned (Failure INTERNAL_SERVER_ERROR INTERNAL_SERVER_ERROR_MESSAGE) ∧
  dishRows w' = dishRows w ++ [dish] ∧
  restaurantRows w' = restaurantRows w.
Proof.
  intros Hid Hname Hprice Hf Hrow Howner. cbv zeta.
  unfold addDish. rewrite Hid, Hname, Hprice.
  destruct (faults w) as [|b1 [|b2 [|b3 fs]]] eqn:Hfaults;
    try discriminate Hf.
  injection Hf as -> -> ->.
  run_calls. rewrite Hrow. simpl.
  case_decide as Hne; [by rewrite Howner in Hne|].
  unfold save_dish, with_tables. run_calls. done.
Qed.

Lemma addDish_restaurant_save_rejected_witness :
  let w' := (addDish alice miso_soup world_failing_third).2 in
  (addDish alice miso_soup world_failing_third).1
    = Returned (Failure INTERNAL_SERVER_ERROR INTERNAL_SERVER_ERROR_MESSAGE) ∧
  dishRows w'
    = dishRows world_failing_third
      ++ [{| d_id := Some (dishSeq world_failing_third); d_restaurantId := 1;
             d_name := "Miso Soup";
             d_description := ad_description miso_soup;
             d_price := 4; d_photo := ad_photo miso_soup |}] ∧
  restaurantRows w' = restaurantRows world_failing_third.
Proof.
  apply (addDish_restaurant_save_rejected alice miso_soup world_failing_third
           1 4 "Miso Soup" sushi_house); reflexivity.
Defined.

(** X15: after a successful [addDish], the restaurant as stored matches
    any query that shares a word with the dish's name or description. *)
Theorem added_dish_is_found (owner : User) (input : AddDishInput) (w : World)
    (restaurantId price : Z) (name : string) (r : Restaurant)
    (search : BrowseRestaurantsInput) (word : string) :
  truthy_number (ad_restaurantId input) = Some restaurantId →
  truthy_string (ad_name input) = Some name →
  truthy_number (ad_price input) = Some price →
  served 3 w = true →
  lookup_restaurant restaurantId (restaurantRows w) = Some r →
  r_ownerId r = u_id owner →
  word ∈ tokenize (default "" (br_query search)) →
  word ∈ tokenize name ∨ word ∈ tokens_of (ad_description input) →
  ∃ indexed,
    lookup_restaurant restaurantId
      (restaurantRows (addDish owner input w).2) = Some indexed ∧
    indexed ∈ candidates (fo_where (browse_options search))
                (restaurantRows (addDish owner input w).2).
Proof.
  intros Hid Hname Hprice Hs Hrow Howner Hq Hword.
  rewrite (addDish_run owner input w restaurantId name price r) by done.
  pose proof (lookup_restaurant_id _ _ _ Hrow) as Hrid.
  cbn [snd restaurantRows].
  eexists. split; [by apply (lookup_restaurant_replaced _ _ r)|].
  apply elem_of_candidates. split; [by apply (elem_of_replaced _ _ r)|].
  apply (matches_query_word _ _ word); [done|]. cbn [r_keywords set_keywords].
  apply extract_add_keys.
  destruct Hword as [Hn|Hd]; [right | by left].
  apply (extract_add_keys (r_keywords r) (Some name) word). by left.
Qed.

Lemma added_dish_is_found_witness :
  ∃ indexed,
    lookup_restaurant 1 (restaurantRows (addDish alice miso_soup world).2)
      = Some indexed ∧
    indexed ∈ candidates (fo_where (browse_options noodles_query_for_roll))
                (restaurantRows (addDish alice miso_soup world).2).
Proof.
  apply (added_dish_is_found alice miso_soup world 1 4 "Miso Soup" sushi_house
           noodles_query_for_roll "miso");
    try reflexivity.
  - vm_compute. left.
  - left. vm_compute. left.
Defined.

(** *** deleteDish, getDishById, updateDish: the failures *)

(** X16: for a dish id that is not stored, [deleteDish], [getDishById]
    and [updateDish] resolve to the not-found result, after the one
    lookup of the dish. *)
Theorem absent_dish_not_found (owner : User) (input : UpdateDishInput)
    (w : World) :
  next_fault w = false →
  lookup_dish (ud_id input) (dishRows w) = None →
  (deleteDish owner (ud_id input) w).1
    = Returned (Failure NOT_FOUND (Text "Dish not found!")) ∧
  (getDishById owner (ud_id input) w).1
    = Returned (Failure NOT_FOUND (Text "Dish not found")) ∧
  (updateDish owner input w).1
    = Returned (Failure NOT_FOUND (Text "Dish not found!")) ∧
  calls (deleteDish owner (ud_id input) w).2
    = calls w ++ [DishesFindOne (ud_id input) ["restaurant"]].
Proof.
  intros Hs Hdish. repeat split;
    unfold deleteDish, getDishById, updateDish; unfold_async;
    rewrite Hs; simpl; by rewrite Hdish.
Qed.

Lemma absent_dish_not_found_witness :
  (deleteDish alice 5 world).1
    = Returned (Failure NOT_FOUND (Text "Dish not found!")) ∧
  (getDishById alice 5 world).1
    = Returned (Failure NOT_FOUND (Text "Dish not found")) ∧
  (updateDish alice rename_missing world).1
    = Returned (Failure NOT_FOUND (Text "Dish not found!")) ∧
  calls (deleteDish alice 5 world).2
    = calls world ++ [DishesFindOne 5 ["restaurant"]].
Proof.
  apply (absent_dish_not_found alice rename_missing world); reflexivity.
Defined.

(** X17: for a dish whose restaurant is not stored, the three methods
    read [ownerId] of nothing, the error is caught, and they resolve to
    the internal-error result; nothing is written. *)
Theorem dish_without_restaurant (owner : User) (input : UpdateDishInput)
    (w : World) (d : Dish) :
  served 2 w = true →
  lookup_dish (ud_id input) (dishRows w) = Some d →
  lookup_restaurant (d_restaurantId d) (restaurantRows w) = None →
  ((deleteDish owner (ud_id input) w).1
     = Returned (Failure INTERNAL_SERVER_ERROR DefaultMessage)
   ∧ stored (deleteDish owner (ud_id input) w).2 = stored w) ∧
  (getDishById owner (ud_id input) w).1
    = Returned (Failure INTERNAL_SERVER_ERROR DefaultMessage) ∧
  ((updateDish owner input w).1
     = Returned (Failure INTERNAL_SERVER_ERROR DefaultMessage)
   ∧ stored (updateDish owner input w).2 = stored w).
Proof.
  intros Hs Hdish Hrow. repeat split;
    unfold deleteDish, getDishById, updateDish;
    by_faults Hs w; run_calls; rewrite Hdish; run_calls; by rewrite Hrow.
Qed.

Lemma dish_without_restaurant_witness :
  (getDishById alice 7 stray_world).1
  = Returned (Failure INTERNAL_SERVER_ERROR DefaultMessage).
Proof.
  apply (dish_without_restaurant alice rename_stray stray_world stray_dish);
    reflexivity.
Defined.

(** X18: [deleteDish] and [updateDish] by a caller who does not own the
    dish's restaurant resolve to the unauthorized result and write
    nothing. *)
Theorem dish_writes_not_owner (owner : User) (input : UpdateDishInput)
    (w : World) (d : Dish) (r : Restaurant) :
  served 2 w = true →
  lookup_dish (ud_id input) (dishRows w) = Some d →
  lookup_restaurant (d_restaurantId d) (restaurantRows w) = Some r →
  r_ownerId r ≠ u_id owner →
  ((deleteDish owner (ud_id input) w).1
     = Returned (Failure UNAUTHORIZED DefaultMessage)
   ∧ stored (deleteDish owner (ud_id input) w).2 = stored w
   ∧ writes (deleteDish owner (ud_id input) w).2 = writes w) ∧
  ((updateDish owner input w).1
     = Returned (Failure UNAUTHORIZED DefaultMessage)
   ∧ stored (updateDish owner input w).2 = stored w
   ∧ writes (updateDish owner input w).2 = writes w).
Proof.
  intros Hs Hdish Hrow Hne. repeat split;
    unfold deleteDish, updateDish;
    by_faults Hs w; run_calls; rewrite Hdish; run_calls; rewrite Hrow;
    simpl; (case_decide; [|done]); try reflexivity;
    unfold writes; simpl; rewrite !List.filter_app; simpl;
    by rewrite !app_nil_r.
Qed.

Lemma dish_writes_not_owner_witness :
  (deleteDish bob 1 world).1 = Returned (Failure UNAUTHORIZED DefaultMessage)
  ∧ stored (deleteDish bob 1 world).2 = stored world
  ∧ writes (deleteDish bob 1 world).2 = writes world.
Proof.
  refine (proj1 (dish_writes_not_owner bob tuna_roll_update world salmon_roll
                   sushi_house _ _ _ _));
    [reflexivity | reflexivity | reflexivity |].
  simpl. lia.
Defined.

(** *** deleteDish: the successful run and the partial one *)

Lemma lookup_dish_deleted_other i j rows :
  j ≠ i →
  lookup_dish j (List.filter (λ d, negb (has_dish_id i d)) rows)
  = lookup_dish j rows.
Proof.
  intros Hne. unfold lookup_dish.
  induction rows as [|x rows IH]; [done|]. simpl.
  destruct (has_dish_id i x) eqn:E; simpl.
  - assert (Hx : has_dish_id j x = false).
    { apply bool_decide_eq_true in E. apply bool_decide_eq_false.
      rewrite E. intros [=]. by apply Hne. }
    by rewrite Hx.
  - destruct (has_dish_id j x); [done | apply IH].
Qed.

(** X19: [deleteDish] by the owner, on a storage layer that serves its
    four calls, resolves to the success result with the dish as it was
    stored.  Afterwards the dish is gone, the other dishes are as
    before, the restaurant is stored with the dish's name and then its
    description subtracted from its keywords, and the other restaurants
    are as before. *)
Theorem deleteDish_served (owner : User) (id : Z) (w : World) (d : Dish)
    (r : Restaurant) :
  served 4 w = true →
  lookup_dish id (dishRows w) = Some d →
  lookup_restaurant (d_restaurantId d) (restaurantRows w) = Some r →
  r_ownerId r = u_id owner →
  let saved :=
    set_keywords r
      (extractAndCountKeywords
         (extractAndCountKeywords (r_keywords r) (Some (d_name d)) true)
         (d_description d) true) in
  let w' := (deleteDish owner id w).2 in
  (deleteDish owner id w).1 = Returned (Ok d) ∧
  lookup_dish id (dishRows w') = None ∧
  (∀ j, j ≠ id → lookup_dish j (dishRows w') = lookup_dish j (dishRows w)) ∧
  lookup_restaurant (d_restaurantId d) (restaurantRows w') = Some saved ∧
  (∀ j, j ≠ d_restaurantId d →
        lookup_restaurant j (restaurantRows w')
        = lookup_restaurant j (restaurantRows w)).
Proof.
  intros Hs Hdish Hrow Howner. cbv zeta.
  rewrite (deleteDish_run owner id w d r) by done.
  pose proof (lookup_restaurant_id _ _ _ Hrow) as Hrid.
  cbn [fst snd restaurantRows dishRows]. repeat split.
  - apply lookup_dish_deleted.
  - intros j Hj. by apply lookup_dish_deleted_other.
  - by apply (lookup_restaurant_replaced _ _ r).
  - intros j Hj. by apply lookup_restaurant_replaced_other.
Qed.

Lemma deleteDish_served_witness :
  (deleteDish alice 1 world).1 = Returned (Ok salmon_roll) ∧
  lookup_dish 1 (dishRows (deleteDish alice 1 world).2) = None ∧
  lookup_restaurant (d_restaurantId salmon_roll)
    (restaurantRows (deleteDish alice 1 world).2)
    = Some (set_keywords sushi_house
              (extractAndCountKeywords
                 (extractAndCountKeywords (r_keywords sushi_house)
                    (Some (d_name salmon_roll)) true)
                 (d_description salmon_roll) true)).
Proof.
  destruct (deleteDish_served alice 1 world salmon_roll sushi_house
              eq_refl eq_refl eq_refl eq_refl)
    as (H1 & H2 & _ & H4 & _).
  split; [exact H1|]. split; [exact H2 | exact H4].
Defined.

(** X20: the save and the delete of [deleteDish] are not one
    transaction.  When the save of the restaurant is served and the
    delete is rejected, the method resolves to the internal-error
    result, the restaurant is stored with the dish's words subtracted,
    and the dish is still stored. *)
Theorem deleteDish_delete_rejected (owner : User) (id : Z) (w : World)
    (d : Dish) (r : Restaurant) :
  take 4 (faults w) = [false; false; false; true] →
  lookup_dish id (dishRows w) = Some d →
  lookup_restaurant (d_restaurantId d) (restaurantRows w) = Some r →
  r_ownerId r = u_id owner →
  let saved :=
    set_keywords r
      (extractAndCountKeywords
         (extractAndCountKeywords (r_keywords r) (Some (d_name d)) true)
         (d_description d) true) in
  let w' := (deleteDish owner id w).2 in
  (deleteDish owner id w).1
    = Returned (Failure INTERNAL_SERVER_ERROR DefaultMessage) ∧
  dishRows w' = dishRows w ∧
  lookup_restaurant (d_restaurantId d) (restaurantRows w') = Some saved.
Proof.
  intros Hf Hdish Hrow Howner. cbv zeta.
  pose proof (lookup_restaurant_id _ _ _ Hrow) as Hrid.
  pose proof (lookup_restaurant_exists _ _ _ Hrow) as Hex.
  unfold deleteDish, keywords_without_dish.
  destruct (faults w) as [|b1 [|b2 [|b3 [|b4 fs]]]] eqn:Hfaults;
    try discriminate Hf.
  injection Hf as -> -> -> ->.
  run_calls. rewrite Hdish. run_calls. rewrite Hrow. simpl.
  case_decide as Hne; [done|].
  unfold save_restaurant, with_tables. run_calls. rewrite Hrid, Hex.
  run_calls. repeat split.
  by apply (lookup_restaurant_replaced _ _ r).
Qed.

Lemma deleteDish_delete_rejected_witness :
  (deleteDish alice 1 world_failing_fourth).1
    = Returned (Failure INTERNAL_SERVER_ERROR DefaultMessage) ∧
  dishRows (deleteDish alice 1 world_failing_fourth).2
    = dishRows world_failing_fourth ∧
  lookup_restaurant (d_restaurantId salmon_roll)
    (restaurantRows (deleteDish alice 1 world_failing_fourth).2)
    = Some (set_keywords sushi_house
              (extractAndCountKeywords
                 (extractAndCountKeywords (r_keywords sushi_house)
                    (Some (d_name salmon_roll)) true)
                 (d_description salmon_roll) true)).
Proof.
  apply (deleteDish_delete_rejected alice 1 world_failing_fourth salmon_roll
           sushi_house); reflexivity.
Defined.

(** *** addDish then deleteDish *)

Lemma iter_inc_dec n o :
  (∀ c, o = Some c → 1 ≤ c) →
  Nat.iter n dec (Nat.iter n inc o) = o.
Proof.
  intros Ho. destruct n as [|n]; [done|]. destruct o as [c|].
  - rewrite iter_inc_Some. apply iter_dec_above. by apply Ho.
  - rewrite iter_inc_None. apply iter_dec_exhaust. lia.
Qed.

(** Adding two texts and subtracting them in the same order restores a
    map whose counts are positive. *)
Lemma add_two_subtract_two m a b :
  counts_positive m →
  extractAndCountKeywords
    (extractAndCountKeywords
       (extractAndCountKeywords (extractAndCountKeywords m a false) b false)
       a true)
    b true
  = m.
Proof.
  intros Hm. apply map_eq. intros k. rewrite !lookup_extract.
  simpl. rewrite <- !Nat.iter_add.
  apply iter_inc_dec. intros c. apply Hm.
Qed.

Lemma lookup_dish_appended i rows d :
  lookup_dish i rows = None → d_id d = Some i →
  lookup_dish i (rows ++ [d]) = Some d.
Proof.
  unfold lookup_dish. intros Hnone Hid.
  induction rows as [|x rows IH]; simpl in *.
  - unfold has_dish_id. by rewrite bool_decide_eq_true_2.
  - destruct (has_dish_id i x); [done | by apply IH].
Qed.

Lemma set_keywords_same r : set_keywords r (r_keywords r) = r.
Proof. by destruct r. Qed.

(** X21: a dish that is added and then deleted leaves the restaurant as
    it was stored before, keywords included, and no dish under the id it
    had: the subtraction made by [deleteDish] undoes the addition made
    by [addDish].  This holds for a restaurant whose stored counts are
    all ≥ 1, a dish sequence whose next id is free, and a storage layer
    that serves the seven calls. *)
Theorem addDish_then_deleteDish (owner : User) (input : AddDishInput)
    (w : World) (restaurantId price : Z) (name : string) (r : Restaurant) :
  truthy_number (ad_restaurantId input) = Some restaurantId →
  truthy_string (ad_name input) = Some name →
  truthy_number (ad_price input) = Some price →
  served 3 w = true →
  served 4 (addDish owner input w).2 = true →
  lookup_restaurant restaurantId (restaurantRows w) = Some r →
  r_ownerId r = u_id owner →
  lookup_dish (dishSeq w) (dishRows w) = None →
  counts_positive (r_keywords r) →
  let w1 := (addDish owner input w).2 in
  let w2 := (deleteDish owner (dishSeq w) w1).2 in
  (deleteDish owner (dishSeq w) w1).1 = (addDish owner input w).1 ∧
  lookup_restaurant restaurantId (restaurantRows w2) = Some r ∧
  lookup_dish (dishSeq w) (dishRows w2) = None.
Proof.
  intros Hid Hname Hprice Hs Hs' Hrow Howner Hfree Hpos. cbv zeta.
  pose proof (lookup_restaurant_id _ _ _ Hrow) as Hrid.
  rewrite (addDish_run owner input w restaurantId name price r) in * by done.
  cbn [fst snd] in *.
  set (dish := set_dish_id _ (dishSeq w)) in *.
  set (indexed := set_keywords r _) in *.
  set (w1 := {| restaurantRows := _ |}) in *.
  assert (Hdish : lookup_dish (dishSeq w) (dishRows w1) = Some dish)
    by by apply lookup_dish_appended.
  assert (Hrow1 : lookup_restaurant (d_restaurantId dish) (restaurantRows w1)
                  = Some indexed)
    by by apply (lookup_restaurant_replaced _ _ r).
  rewrite (deleteDish_run owner (dishSeq w) w1 dish indexed) by done.
  cbn [fst snd restaurantRows dishRows].
  assert (Hsaved : set_keywords indexed (keywords_without_dish indexed dish)
                   = r).
  { unfold keywords_without_dish, indexed, dish.
    cbn [r_keywords set_keywords d_name d_description set_dish_id].
    rewrite add_two_subtract_two by done.
    transitivity (set_keywords r (r_keywords r));
      [reflexivity | apply set_keywords_same]. }
  rewrite Hsaved. repeat split.
  - exact (lookup_restaurant_replaced restaurantId (restaurantRows w1)
             indexed r Hrow1 Hrid).
  - apply lookup_dish_deleted.
Qed.

Lemma addDish_then_deleteDish_witness :
  let w1 := (addDish alice miso_soup world).2 in
  let w2 := (deleteDish alice (dishSeq world) w1).2 in
  (deleteDish alice (dishSeq world) w1).1 = (addDish alice miso_soup world).1 ∧
  lookup_restaurant 1 (restaurantRows w2) = Some sushi_house ∧
  lookup_dish (dishSeq world) (dishRows w2) = None.
Proof.
  apply (addDish_then_deleteDish alice miso_soup world 1 4 "Miso Soup"
           sushi_house); try reflexivity.
  do 2 apply extract_positive. apply counts_positive_empty.
Defined.

(** *** updateDish and getDishById *)

Lemma lookup_dish_replaced i rows d d' :
  lookup_dish i rows = Some d → d_id d' = Some i →
  lookup_dish i (map (λ x, if has_dish_id i x then d' else x) rows) = Some d'.
Proof.
  unfold lookup_dish. intros H Hid.
  assert (Hd' : has_dish_id i d' = true) by by apply bool_decide_eq_true.
  induction rows as [|x rows IH]; [done|]. simpl in *.
  destruct (has_dish_id i x) eqn:E.
  - by rewrite Hd'.
  - rewrite E. by apply IH.
Qed.

Lemma lookup_dish_replaced_other i j rows d' :
  d_id d' = Some i → j ≠ i →
  lookup_dish j (map (λ x, if has_dish_id i x then d' else x) rows)
  = lookup_dish j rows.
Proof.
  intros Hid Hne. unfold lookup_dish.
  induction rows as [|x rows IH]; [done|]. simpl.
  destruct (has_dish_id i x) eqn:E.
  - assert (Hx : has_dish_id j x = false).
    { apply bool_decide_eq_true in E. apply bool_decide_eq_false.
      rewrite E. intros [=]. by apply Hne. }
    assert (Hr : has_dish_id j d' = false).
    { apply bool_decide_eq_false. rewrite Hid. intros [=]. by apply Hne. }
    by rewrite Hx, Hr.
  - destruct (has_dish_id j x); [done | apply IH].
Qed.

(** The fields of the dish [updateDish] saves, from the stored dish and
    the input. *)
Lemma updateDish_objects_fields input r d :
  let updated := (updateDish_objects input r d).2 in
  d_name updated = default (d_name d) (truthy_string (ud_name input)) ∧
  d_description updated
    = match truthy_string (ud_description input) with
      | Some s => Some s
      | None => d_description d
      end ∧
  d_price updated = default (d_price d) (ud_price input) ∧
  d_photo updated
    = match truthy_string (ud_photo input) with
      | Some s => Some s
      | None => d_photo d
      end.
Proof.
  unfold updateDish_objects, redescribe_dish, rename_dish, rephoto_dish,
    reprice_dish.
  destruct (truthy_string (ud_name input)),
    (truthy_string (ud_description input)),
    (truthy_string (ud_photo input)), (ud_price input); done.
Qed.

(** X22: [updateDish] never writes to the restaurants table: whatever
    its input and whatever it resolves to, the stored restaurants are as
    before and no [save] of a restaurant is among its calls. *)
Theorem updateDish_never_saves_restaurant (owner : User)
    (input : UpdateDishInput) (w : World) :
  restaurantRows (updateDish owner input w).2 = restaurantRows w ∧
  (∀ r, RestaurantsSave r ∈ calls (updateDish owner input w).2 →
        RestaurantsSave r ∈ calls w).
Proof.
  split; [apply updateDish_restaurant_rows|].
  intros r. apply updateDish_no_restaurant_save.
Qed.

Lemma updateDish_never_saves_restaurant_witness :
  restaurantRows (updateDish alice tuna_roll_update world).2
  = restaurantRows world.
Proof.
  apply (proj1 (updateDish_never_saves_restaurant alice tuna_roll_update
                  world)).
Defined.

(** X23: [updateDish] by the owner, on a storage layer that serves its
    three calls, resolves to the success result with the updated dish;
    the dish is stored as returned under the same id, and the other
    dishes are as before. *)
Theorem updateDish_served (owner : User) (input : UpdateDishInput)
    (w : World) (d : Dish) (r : Restaurant) :
  served 3 w = true →
  lookup_dish (ud_id input) (dishRows w) = Some d →
  lookup_restaurant (d_restaurantId d) (restaurantRows w) = Some r →
  r_ownerId r = u_id owner →
  ∃ updated,
    (updateDish owner input w).1 = Returned (Ok updated) ∧
    lookup_dish (ud_id input) (dishRows (updateDish owner input w).2)
      = Some updated ∧
    (∀ j, j ≠ ud_id input →
          lookup_dish j (dishRows (updateDish owner input w).2)
          = lookup_dish j (dishRows w)).
Proof.
  intros Hs Hdish Hrow Howner.
  rewrite (updateDish_run owner input w d r) by done.
  pose proof (lookup_dish_id _ _ _ Hdish) as Hdid.
  destruct (updateDish_objects_keys input r d) as [Hkeep _].
  rewrite Hdid in Hkeep.
  eexists. cbn [fst snd dishRows]. repeat split.
  - by apply (lookup_dish_replaced _ _ d).
  - intros j Hj. by apply lookup_dish_replaced_other.
Qed.

Lemma updateDish_served_witness :
  ∃ updated,
    (updateDish alice tuna_roll_update world).1 = Returned (Ok updated) ∧
    lookup_dish (ud_id tuna_roll_update)
      (dishRows (updateDish alice tuna_roll_update world).2) = Some updated ∧
    (∀ j, j ≠ ud_id tuna_roll_update →
          lookup_dish j (dishRows (updateDish alice tuna_roll_update world).2)
          = lookup_dish j (dishRows world)).
Proof.
  apply (updateDish_served alice tuna_roll_update world salmon_roll
           sushi_house); reflexivity.
Defined.

(** X24: the dish a successful [updateDish] returns is the stored dish
    with the same id and restaurant, and each other field either kept
    or replaced: the name and the photo are replaced by a non-empty
    string and kept otherwise, the price is replaced by any number
    given, 0 included, and the description is replaced by a non-empty
    string and kept otherwise, so that it is never removed. *)
Theorem updateDish_fields (owner : User) (input : UpdateDishInput)
    (w : World) (updated : Dish) :
  (updateDish owner input w).1 = Returned (Ok updated) →
  ∃ d, lookup_dish (ud_id input) (dishRows w) = Some d ∧
       d_id updated = d_id d ∧
       d_restaurantId updated = d_restaurantId d ∧
       d_name updated = default (d_name d) (truthy_string (ud_name input)) ∧
       d_description updated
         = match truthy_string (ud_description input) with
           | Some s => Some s
           | None => d_description d
           end ∧
       d_price updated = default (d_price d) (ud_price input) ∧
       d_photo updated
         = match truthy_string (ud_photo input) with
           | Some s => Some s
           | None => d_photo d
           end.
Proof.
  unfold updateDish. unfold_async.
  unfold save_dish, with_tables, next_fault. split_cases.
  all: intros H; try discriminate H; injection H as <-.
  all: match goal with
       | Hobj : updateDish_objects ?i ?r ?d = _ |- _ =>
           pose proof (updateDish_objects_keys i r d) as [K1 K2];
           pose proof (updateDish_objects_fields i r d) as F;
           rewrite Hobj in K1, K2, F; cbn [snd] in K1, K2, F
       end.
  all: match goal with
       | Hd : lookup_dish _ _ = Some _ |- _ =>
           pose proof (lookup_dish_id _ _ _ Hd) as Hdid
       end.
  all: try congruence.
  all: repeat match goal with
              | E : truthy_string _ = _ |- _ => rewrite ?E in F; clear E
              end.
  all: eexists; split; [reflexivity|]; split; [done|]; split; [done|];
    exact F.
Qed.

Lemma updateDish_fields_witness :
  ∃ d, lookup_dish (ud_id free_and_plain) (dishRows world) = Some d ∧
       d_id (set_dish_price salmon_roll 0) = d_id d ∧
       d_restaurantId (set_dish_price salmon_roll 0) = d_restaurantId d ∧
       d_name (set_dish_price salmon_roll 0)
         = default (d_name d) (truthy_string (ud_name free_and_plain)) ∧
       d_description (set_dish_price salmon_roll 0)
         = match truthy_string (ud_description free_and_plain) with
           | Some s => Some s
           | None => d_description d
           end ∧
       d_price (set_dish_price salmon_roll 0)
         = default (d_price d) (ud_price free_and_plain) ∧
       d_photo (set_dish_price salmon_roll 0)
         = match truthy_string (ud_photo free_and_plain) with
           | Some s => Some s
           | None => d_photo d
           end.
Proof.
  apply (updateDish_fields alice free_and_plain world
           (set_dish_price salmon_roll 0)).
  reflexivity.
Defined.

(** X25: the owner who asks [getDishById] for a dish of theirs gets the
    dish as stored. *)
Theorem getDishById_owner (owner : User) (id : Z) (w : World) (d : Dish)
    (r : Restaurant) :
  served 2 w = true →
  lookup_dish id (dishRows w) = Some d →
  lookup_restaurant (d_restaurantId d) (restaurantRows w) = Some r →
  r_ownerId r = u_id owner →
  (getDishById owner id w).1 = Returned (Ok d).
Proof.
  intros Hs Hdish Hrow Howner. unfold getDishById.
  by_faults Hs w; run_calls; rewrite Hdish; run_calls; rewrite Hrow; simpl;
    by case_decide.
Qed.

Lemma getDishById_owner_witness :
  (getDishById alice 1 world).1 = Returned (Ok salmon_roll).
Proof.
  apply (getDishById_owner alice 1 world salmon_roll sushi_house);
    reflexivity.
Defined.

(** *** browseRestaurants: consecutive pages *)

(** X26: with a limit of at least 1 and a non-negative offset, the page
    at [offset] followed by the page at [offset + 1] is the run of
    [2 * limit] matching restaurants that starts after the first
    [offset * limit]: consecutive pages neither overlap nor leave a
    gap. *)
Theorem browse_pages_tile (query : option string) (limit offset : Z)
    (w : World) :
  0 < limit → 0 ≤ offset → next_fault w = false →
  let input o :=
    {| br_limit := Some limit; br_query := query; br_offset := Some o |} in
  let found :=
    candidates (fo_where (browse_options (input offset))) (restaurantRows w) in
  ∃ first second,
    (browseRestaurants (input offset) w).1 = Returned (Ok first) ∧
    (browseRestaurants (input (offset + 1)) w).1 = Returned (Ok second) ∧
    first ++ second
    = with_dishes (dishRows w)
        <$> take (Z.to_nat (2 * limit)) (drop (Z.to_nat (offset * limit)) found).
Proof.
  intros Hlimit Hoffset Hserved. cbv zeta.
  rewrite !browseRestaurants_served
    by (done || (apply browse_page_accepted; simpl; lia)).
  do 2 eexists. split; [reflexivity|]. split; [reflexivity|].
  unfold find_many, browse_options.
  cbn [fo_where fo_skip fo_take fo_relations default br_limit br_query
       br_offset].
  rewrite !page_limited by (unfold id; lia).
  change (load_relations ["dishes"] (dishRows w))
    with (with_dishes (dishRows w)).
  rewrite (decide_True (P := 0 ≤ offset)) by lia.
  rewrite (decide_True (P := 0 ≤ offset + 1)) by lia.
  rewrite <- fmap_app. f_equal. unfold id.
  replace ((offset + 1) * limit) with (offset * limit + limit) by ring.
  rewrite Z2Nat.inj_add; [|apply Z.mul_nonneg_nonneg; lia | lia].
  replace (Z.to_nat (2 * limit)) with (Z.to_nat limit + Z.to_nat limit)%nat
    by lia.
  rewrite <- drop_drop. apply take_take_drop.
Qed.

Lemma browse_pages_tile_witness :
  let input o :=
    {| br_limit := Some 2; br_query := Some "bar tuna"; br_offset := Some o |} in
  let found :=
    candidates (fo_where (browse_options (input 0))) (restaurantRows street) in
  ∃ first second,
    (browseRestaurants (input 0) street).1 = Returned (Ok first) ∧
    (browseRestaurants (input (0 + 1)) street).1 = Returned (Ok second) ∧
    first ++ second
    = with_dishes (dishRows street)
        <$> take (Z.to_nat (2 * 2)) (drop (Z.to_nat (0 * 2)) found).
Proof.
  apply (browse_pages_tile (Some "bar tuna") 2 0 street);
    [lia | lia | reflexivity].
Defined.

Example browse_two_pages :
  (λ p, r_name (rd_restaurant p))
    <$> find_many (browse_options first_page_of_two) street
  = ["Salmon Bar"; "Tuna Bar"].
Proof. vm_compute. reflexivity. Qed.

End WorkflowFacts.
